(** * lib/pool.js: the worker-pool wrapper of Mocha's parallel mode

    A shallow embedding of [lib/pool.js] (class [WorkerPool] and the
    module-level options cache) together with the properties that the
    specification states about it.

    The module talks to four collaborators that live outside of it:
    [serialize-javascript], [workerpool], [./serializer] and [debug].  Calls
    to them are recorded in a trace of events, and what they answer is given
    by an [Externals] record that every operation takes as a parameter.

    Code runs in a state and exception monad over a [World]: the heap of
    plain objects, the module-level [optionsCache] and the trace.  An
    [async] method returns the settled state of its promise. *)

From Stdlib Require Import ZArith QArith.
From stdpp Require Import base option list strings gmap pretty sorting.

Local Open Scope Z_scope.
Local Open Scope string_scope.
Local Open Scope list_scope.

(** ** JavaScript numbers

    A double is NaN, an infinity or a finite rational.  The module only
    compares numbers and subtracts one from an array length, so the finite
    part is kept as a rational; the sign of zero is not tracked. *)

Inductive number :=
| NaN
| NegInfinity
| Infinity
| Finite (q : Q).

Definition of_Z (z : Z) : number := Finite (inject_Z z).

Definition isNaN (n : number) : bool :=
  match n with NaN => true | _ => false end.

(** [a < b] of JavaScript: false as soon as one side is NaN. *)
Definition number_lt (a b : number) : bool :=
  match a, b with
  | NaN, _ | _, NaN => false
  | NegInfinity, NegInfinity => false
  | NegInfinity, _ => true
  | _, NegInfinity => false
  | Infinity, _ => false
  | Finite _, Infinity => true
  | Finite x, Finite y => negb (Qle_bool y x)
  end.

(** [a >= b] of JavaScript: [!(a < b)] unless one side is NaN. *)
Definition number_ge (a b : number) : bool :=
  negb (isNaN a) && negb (isNaN b) && negb (number_lt a b).

(** The mathematical reading of [1 <= n], used to state bounds. *)
Definition at_least_one (n : number) : Prop := number_ge n (of_Z 1) = true.

(** ** JavaScript values

    Objects are references into a heap; two references are the same object
    exactly when they are equal.  The heap keeps the own enumerable
    properties of each object, which are plain data (no accessors).  A
    function is an object that [typeof] tells apart. *)

Definition loc := positive.

Inductive value :=
| VUndefined
| VNull
| VBool (b : bool)
| VNumber (n : number)
| VBigInt (z : Z)
| VString (s : string)
| VSymbol (id : positive)
| VObject (l : loc)
| VFunction (l : loc).

(** A plain object: its own enumerable string-keyed properties. *)
Abbreviation object := (gmap string value).
Abbreviation Heap := (gmap loc (gmap string value)).

Definition typeof (v : value) : string :=
  match v with
  | VUndefined => "undefined"
  | VNull => "object"
  | VBool _ => "boolean"
  | VNumber _ => "number"
  | VBigInt _ => "bigint"
  | VString _ => "string"
  | VSymbol _ => "symbol"
  | VObject _ => "object"
  | VFunction _ => "function"
  end.

Definition ToBoolean (v : value) : bool :=
  match v with
  | VUndefined | VNull => false
  | VBool b => b
  | VNumber NaN => false
  | VNumber (Finite q) => negb (Qeq_bool q 0)
  | VNumber _ => true
  | VBigInt z => negb (Z.eqb z 0)
  | VString s => negb (String.eqb s "")
  | VSymbol _ | VObject _ | VFunction _ => true
  end.

(** The object a value refers to, if it is one. *)
Definition reference (v : value) : option loc :=
  match v with
  | VObject l | VFunction l => Some l
  | _ => None
  end.

(** ** Errors and completions *)

(** What a [throw] or a rejected promise carries. *)
Inductive exn :=
| MochaError (code message argument expected : string)
| TypeError (message : string)
| Foreign (v : value).

(** Modelled from the spec: [createInvalidArgumentTypeError] of [./errors],
    which is not part of the sources at hand.  The error kind
    [InvalidArgumentType] has a machine-checkable code and carries the
    offending parameter name and the expected type. *)
Definition createInvalidArgumentTypeError (message argument expected : string) : exn :=
  MochaError "ERR_MOCHA_INVALID_ARG_TYPE" message argument expected.

(** Result of running a synchronous piece of code. *)
Inductive Completion (A : Type) :=
| Normal (a : A)
| Throw (e : exn).
Arguments Normal {A} a.
Arguments Throw {A} e.

(** State of a settled promise. *)
Inductive Settled (A : Type) :=
| Fulfilled (a : A)
| Rejected (e : exn).
Arguments Fulfilled {A} a.
Arguments Rejected {A} e.

(** ** The world the module runs in *)

(** The second argument of [serializeJavascript]. *)
Record SerializeJsOptions := {
  unsafe : bool;
  ignoreFunction : bool
}.

(** Calls that leave the module, in the order they were made. *)
Inductive event :=
| EvDebug (format : string) (args : list value)
| EvSerialize (v : value) (o : SerializeJsOptions)
| EvPool (script : string) (options : value)
| EvExec (pool : value) (method : string) (params : list value)
| EvDeserialize (raw : value)
| EvStats (pool : value)
| EvTerminate (pool : value) (force : value).

(** [optionsCache] is the module-level [WeakMap<Options,string>]: a finite
    map keyed by object identity.  An entry whose key has become unreachable
    cannot be observed, so dropping it is not modelled. *)
Record World := {
  heap : Heap;
  optionsCache : gmap loc string;
  trace : list event
}.

Definition set_heap (hp : Heap) (w : World) : World :=
  {| heap := hp; optionsCache := optionsCache w; trace := trace w |}.
Definition set_optionsCache (c : gmap loc string) (w : World) : World :=
  {| heap := heap w; optionsCache := c; trace := trace w |}.
Definition emit (ev : event) (w : World) : World :=
  {| heap := heap w; optionsCache := optionsCache w; trace := trace w ++ [ev] |}.

(** What the collaborators answer.  Each of them may keep state of its own,
    so its answer may depend on the calls made so far. *)
Record Externals := {
  (* require('serialize-javascript') *)
  serializeJavascript :
    list event → Heap → value → SerializeJsOptions → Completion string;
  (* require('./serializer').deserialize *)
  deserialize : list event → value → Completion value;
  (* require('workerpool').pool and the methods of the pool it returns *)
  workerpool_pool : list event → Heap → string → value → Completion value;
  Pool_exec : list event → value → string → list value → Settled value;
  Pool_stats : list event → value → Completion value;
  Pool_terminate : list event → value → value → Settled value;
  (* the engine's conversions of strings and objects to numbers *)
  StringToNumber : string → number;
  ObjectToNumber : Heap → loc → Completion number
}.

(** What the module reads from its host when it is loaded. *)
Record Host := {
  cpus_length : nat;          (* require('os').cpus().length *)
  process_execArgv : value;   (* process.execArgv, an array *)
  execArgv_joined : string;   (* process.execArgv.join(' ') *)
  WORKER_PATH : string        (* require.resolve('./worker.js') *)
}.

(** ** A state and exception monad for the module's code *)

Definition M (A : Type) : Type := World → Completion A * World.

Definition ret {A} (a : A) : M A := λ w, (Normal a, w).

Definition throw {A} (e : exn) : M A := λ w, (Throw e, w).

Definition bind {A B} (c : M A) (k : A → M B) : M B :=
  λ w, match c w with
       | (Normal a, w') => k a w'
       | (Throw e, w') => (Throw e, w')
       end.

Notation "'let*' x ':=' c 'in' k" := (bind c (λ x, k))
  (at level 10, x name, c at level 100, k at level 200).

(** An [async] function settles its promise with what its body completes
    with; [await] turns a settled promise back into a completion. *)
Definition async {A} (c : Completion A) : Settled A :=
  match c with Normal a => Fulfilled a | Throw e => Rejected e end.

Definition await {A} (p : Settled A) : Completion A :=
  match p with Fulfilled a => Normal a | Rejected e => Throw e end.

(** ** Engine primitives *)

(** An object literal: a new object, distinct from every object so far. *)
Definition alloc (o : object) : M value :=
  λ w, let l := fresh (dom (heap w)) in
       (Normal (VObject l), set_heap (<[l := o]> (heap w)) w).

(** A defaulted parameter [x = e]: [e] is evaluated when [x] is undefined. *)
Definition default_param (arg : value) (e : M value) : M value :=
  match arg with VUndefined => e | _ => ret arg end.

(** The indexed properties of a string primitive. *)
Definition string_index_props (s : string) : object :=
  list_to_map (imap (λ i c, (pretty i, VString (String c ""))) (String.list_ascii_of_string s)).

(** Own enumerable properties of [ToObject v], for [v] not nullish. *)
Definition OwnEnumerable (hp : Heap) (v : value) : object :=
  match v with
  | VObject l | VFunction l => hp !!! l
  | VString s => string_index_props s
  | _ => ∅
  end.

(** [v.key] for a key that is neither inherited nor a built-in property of
    functions. *)
Definition Get (v : value) (key : string) : M value :=
  λ w, match v with
       | VUndefined | VNull =>
           (Throw (TypeError "Cannot read property of undefined or null"), w)
       | VString s =>
           (Normal (if String.eqb key "length"
                    then VNumber (of_Z (Z.of_nat (String.length s)))
                    else default VUndefined (string_index_props s !! key)), w)
       | _ => (Normal (default VUndefined (OwnEnumerable (heap w) v !! key)), w)
       end.

(** The sources are copied one after the other into the object [target]; a
    later source overrides an earlier one. *)
Fixpoint Object_assign_from (target : loc) (sources : list value) (hp : Heap) : Heap :=
  match sources with
  | [] => hp
  | src :: rest =>
      Object_assign_from target rest
        (<[target := OwnEnumerable hp src ∪ (hp !!! target)]> hp)
  end.

(** [Object.assign(target, ...sources)] for an object [target]. *)
Definition Object_assign (target : value) (sources : list value) : M value :=
  λ w, match target with
       | VObject l => (Normal target, set_heap (Object_assign_from l sources (heap w)) w)
       | _ => (Throw (TypeError "Object.assign: target is not an object"), w)
       end.

Section Module.

Context (X : Externals) (host : Host).

Definition ToNumber (v : value) : M number :=
  λ w, match v with
       | VUndefined => (Normal NaN, w)
       | VNull => (Normal (of_Z 0), w)
       | VBool b => (Normal (of_Z (if b then 1 else 0)), w)
       | VNumber n => (Normal n, w)
       | VBigInt _ => (Throw (TypeError "Cannot convert a BigInt value to a number"), w)
       | VString s => (Normal (StringToNumber X s), w)
       | VSymbol _ => (Throw (TypeError "Cannot convert a Symbol value to a number"), w)
       | VObject l | VFunction l => (ObjectToNumber X (heap w) l, w)
       end.

Fixpoint ToNumbers (vs : list value) : M (list number) :=
  match vs with
  | [] => ret []
  | v :: rest =>
      let* n := ToNumber v in
      let* ns := ToNumbers rest in
      ret (n :: ns)
  end.

(** The larger of two numbers, NaN when one of them is. *)
Definition max2 (a b : number) : number :=
  if isNaN a || isNaN b then NaN else if number_lt a b then b else a.

(** [Math.max(...args)]: all arguments are coerced first; the result is NaN
    as soon as one of them is. *)
Definition Math_max (args : list value) : M number :=
  let* ns := ToNumbers args in
  ret (foldl max2 NegInfinity ns).

(** [debug(format, ...args)] *)
Definition debug (format : string) (args : list value) : M unit :=
  λ w, (Normal tt, emit (EvDebug format args) w).

(** The calls to the other collaborators: the call is recorded and the
    collaborator answers from what happened before it. *)
Definition call_serializeJavascript (v : value) (o : SerializeJsOptions) : M string :=
  λ w, (serializeJavascript X (trace w) (heap w) v o, emit (EvSerialize v o) w).

Definition call_deserialize (raw : value) : M value :=
  λ w, (deserialize X (trace w) raw, emit (EvDeserialize raw) w).

Definition call_workerpool_pool (script : string) (opts : value) : M value :=
  λ w, (workerpool_pool X (trace w) (heap w) script opts, emit (EvPool script opts) w).

Definition call_exec (pool : value) (method : string) (params : list value)
  : World → Settled value * World :=
  λ w, (Pool_exec X (trace w) pool method params, emit (EvExec pool method params) w).

Definition call_stats (pool : value) : M value :=
  λ w, (Pool_stats X (trace w) pool, emit (EvStats pool) w).

Definition call_terminate (pool force : value) : World → Settled value * World :=
  λ w, (Pool_terminate X (trace w) pool force, emit (EvTerminate pool force) w).

(** [await p]: the caller is suspended until [p] settles.  What other code
    does in between is not modelled; every property below is about one call. *)
Definition awaiting {A} (p : World → Settled A * World) : M A :=
  λ w, let '(r, w') := p w in (await r, w').

(** The promise an [async] function returns. *)
Definition async_fn {A} (body : M A) : World → Settled A * World :=
  λ w, let '(c, w') := body w in (async c, w').

(** ** The module-level cache: [let optionsCache = new WeakMap()] *)

(** [optionsCache = new WeakMap()] *)
Definition optionsCache_new : M unit :=
  λ w, (Normal tt, set_optionsCache ∅ w).

(** [optionsCache.has(key)], [optionsCache.set(key, s)] and
    [optionsCache.get(key)]; only an object can be a key. *)
Definition optionsCache_has (key : value) : M bool :=
  λ w, (Normal match reference key with
               | Some l => bool_decide (is_Some (optionsCache w !! l))
               | None => false
               end, w).

Definition optionsCache_set (key : value) (s : string) : M unit :=
  λ w, match reference key with
       | Some l => (Normal tt, set_optionsCache (<[l := s]> (optionsCache w)) w)
       | None => (Throw (TypeError "Invalid value used as weak map key"), w)
       end.

Definition optionsCache_get (key : value) : M value :=
  λ w, (Normal match reference key with
               | Some l => from_option VString VUndefined (optionsCache w !! l)
               | None => VUndefined
               end, w).

(** ** Module constants *)

Definition CPU_COUNT : number := of_Z (Z.of_nat (cpus_length host)).

(** [CPU_COUNT - 1]: an array length minus one is exact. *)
Definition DEFAULT_MAX_WORKERS : number := of_Z (Z.of_nat (cpus_length host) - 1).

Definition DEFAULT_OPTS_literal (forkOpts : value) : object :=
  {[ "workerType" := VString "process";
     "forkOpts" := forkOpts;
     "maxWorkers" := VNumber DEFAULT_MAX_WORKERS ]}.

(** The module-level bindings that refer to objects. *)
Record Bindings := {
  WORKER_POOL_DEFAULT_OPTS : value
}.

(** Evaluation of the module body. *)
Definition load : M Bindings :=
  let* _ := optionsCache_new in
  let* forkOpts := alloc {[ "execArgv" := process_execArgv host ]} in
  let* defaults := alloc (DEFAULT_OPTS_literal forkOpts) in
  ret {| WORKER_POOL_DEFAULT_OPTS := defaults |}.

(** ** class WorkerPool *)

(** The fields of an instance: [this.options] and [this._pool]. *)
Record WorkerPool := {
  options : value;
  _pool : value
}.

Context (m : Bindings).

Definition constructor (opts_arg : value) : M WorkerPool :=
  let* opts := default_param opts_arg (ret (WORKER_POOL_DEFAULT_OPTS m)) in
  let* requested := Get opts "maxWorkers" in
  let* maxWorkers := Math_max [VNumber (of_Z 1); requested] in
  let* _ :=
    (if number_lt maxWorkers (of_Z 2) then
       debug "not enough CPU cores available (%d) to run multiple jobs; avoid --parallel on this machine"
             [VNumber CPU_COUNT]
     else if number_ge maxWorkers CPU_COUNT then
       debug "%d concurrent job(s) requested, but only %d core(s) available"
             [VNumber maxWorkers; VNumber CPU_COUNT]
     else ret tt) in
  let* _ :=
    debug "run(): starting worker pool of max size %d, using node args: %s"
          [VNumber maxWorkers; VString (execArgv_joined host)] in
  let* target := alloc ∅ in
  let* override := alloc {[ "maxWorkers" := VNumber maxWorkers ]} in
  let* this_options := Object_assign target [opts; override] in
  let* pool := call_workerpool_pool (WORKER_PATH host) this_options in
  ret {| options := this_options; _pool := pool |}.

Definition terminate (this : WorkerPool) (force_arg : value)
  : World → Settled value * World :=
  async_fn (
    let* force := default_param force_arg (ret (VBool false)) in
    awaiting (call_terminate (_pool this) force)).

Definition serializeOptions (opts_arg : value) : M value :=
  let* opts := default_param opts_arg (alloc ∅) in
  let* cached := optionsCache_has opts in
  let* _ :=
    (if negb cached then
       let* serialized :=
         call_serializeJavascript opts {| unsafe := true; ignoreFunction := true |} in
       let* _ := optionsCache_set opts serialized in
       debug "serializeOptions(): serialized options %O to: %s"
             [opts; VString serialized]
     else ret tt) in
  optionsCache_get opts.

Definition run (this : WorkerPool) (filepath options_arg : value)
  : World → Settled value * World :=
  async_fn (
    let* options := default_param options_arg (alloc ∅) in
    let* _ :=
      (if negb (ToBoolean filepath) || negb (String.eqb (typeof filepath) "string") then
         throw (createInvalidArgumentTypeError
                  "Expected a non-empty filepath" "filepath" "string")
       else ret tt) in
    let* serializedOptions := serializeOptions options in
    let* result :=
      awaiting (call_exec (_pool this) "run" [filepath; serializedOptions]) in
    call_deserialize result).

Definition stats (this : WorkerPool) : M value :=
  call_stats (_pool this).

(** [static create(...args)]: [new WorkerPool(...args)]. *)
Definition create (args : list value) : M WorkerPool :=
  constructor (default VUndefined (head args)).

Definition resetOptionsCache : M unit :=
  optionsCache_new.

End Module.

(** ** Reading a trace *)

Definition serializer_calls (tr : list event) : list value :=
  omap (λ ev, match ev with EvSerialize v _ => Some v | _ => None end) tr.

Definition exec_calls (tr : list event) : list (value * string * list value) :=
  omap (λ ev, match ev with EvExec p name params => Some (p, name, params) | _ => None end) tr.

Definition deserialize_calls (tr : list event) : list value :=
  omap (λ ev, match ev with EvDeserialize raw => Some raw | _ => None end) tr.

Definition stats_calls (tr : list event) : list value :=
  omap (λ ev, match ev with EvStats p => Some p | _ => None end) tr.

(** [cmap f c]: [c] with [f] applied to what it returns, if it returns. *)
Definition cmap {A B} (f : A → B) (c : Completion A) : Completion B :=
  match c with Normal a => Normal (f a) | Throw e => Throw e end.

(** The options every call of [serializeOptions] hands to the Serializer. *)
Definition SERIALIZE_OPTS : SerializeJsOptions :=
  {| unsafe := true; ignoreFunction := true |}.

(** [this.options.maxWorkers] read in world [w]. *)
Definition maxWorkers_of (w : World) (this_options : value) : value :=
  default VUndefined (OwnEnumerable (heap w) this_options !! "maxWorkers").

(** The module has been loaded: its [WORKER_POOL_DEFAULT_OPTS] binding refers
    to an object of the heap that holds the defaults. *)
Definition module_loaded (host : Host) (m : Bindings) (w : World) : Prop :=
  ∃ d forkOpts,
    WORKER_POOL_DEFAULT_OPTS m = VObject d ∧
    heap w !! d = Some (DEFAULT_OPTS_literal host forkOpts).

(** Every key of the cache is an object of the heap. *)
Definition cache_wf (w : World) : Prop :=
  dom (optionsCache w) ⊆ dom (heap w).

(** [built X host c w' o]: construction ended in world [w'] after it built
    the options object [o] and handed it to [workerpool.pool]; [c] is the
    instance around the pool that call returned, or what it threw. *)
Definition built (X : Externals) (host : Host)
    (c : Completion WorkerPool) (w' : World) (o : value) : Prop :=
  ∃ tr : list event,
    trace w' = tr ++ [EvPool (WORKER_PATH host) o] ∧
    c = cmap (λ p, {| options := o; _pool := p |})
             (workerpool_pool X tr (heap w') (WORKER_PATH host) o).

(** The reference the next object literal gets. *)
Definition next_object (w : World) : loc := fresh (dom (heap w)).

(** The world after the literal [{}] of a defaulted parameter. *)
Definition with_empty_object (w : World) : World :=
  set_heap (<[next_object w := ∅]> (heap w)) w.

(** The heap once the constructor has built [this.options] from the object
    [l] and the clamped number [mw]. *)
Definition heap_after_constructor (l : loc) (mw : number) (hp : Heap) : Heap :=
  let l1 := fresh (dom hp) in
  let hp1 := <[l1 := ∅]> hp in
  let l2 := fresh (dom hp1) in
  let hp2 := <[l2 := {[ "maxWorkers" := VNumber mw ]}]> hp1 in
  Object_assign_from l1 [VObject l; VObject l2] hp2.

(** [w'] still holds every object of [w], unchanged. *)
Definition heap_grows (w w' : World) : Prop :=
  ∀ k x, heap w !! k = Some x → heap w' !! k = Some x.

(** ** What callers can do

    The code around the module creates objects, writes to them and calls
    into the module.  The worlds reached that way are the ones in which the
    properties below are of use. *)

Section Program.

Context (X : Externals) (host : Host) (m : Bindings).

(** One step of the calling code. *)
Inductive action :=
| ANewObject (o : object)
| ASetProperty (l : loc) (key : string) (v : value)
| ACreate (args : list value)
| ARun (this : WorkerPool) (filepath options_arg : value)
| AStats (this : WorkerPool)
| ATerminate (this : WorkerPool) (force : value)
| ASerializeOptions (opts_arg : value)
| AResetOptionsCache.

Definition perform (a : action) (w : World) : World :=
  match a with
  | ANewObject o => (alloc o w).2
  | ASetProperty l key v => set_heap (<[l := <[key := v]> (heap w !!! l)]> (heap w)) w
  | ACreate args => (create X host m args w).2
  | ARun this filepath options_arg => (run X this filepath options_arg w).2
  | AStats this => (stats X this w).2
  | ATerminate this force => (terminate X this force w).2
  | ASerializeOptions opts_arg => (serializeOptions X opts_arg w).2
  | AResetOptionsCache => (resetOptionsCache w).2
  end.

(** An object reference in an argument refers to an object of the heap.
    Objects made by the collaborators are not kept in the heap; a caller
    that wants to pass one as a configuration creates it with
    [ANewObject]. *)
Definition known (w : World) (v : value) : Prop :=
  match reference v with Some l => is_Some (heap w !! l) | None => True end.

(** Callers pass objects that exist and cannot write to the module's
    private default options, which it never hands out. *)
Definition permitted (w : World) (a : action) : Prop :=
  match a with
  | ASetProperty l _ _ =>
      is_Some (heap w !! l) ∧ WORKER_POOL_DEFAULT_OPTS m ≠ VObject l
  | ARun _ _ options_arg => known w options_arg
  | ASerializeOptions opts_arg => known w opts_arg
  | _ => True
  end.

(** The worlds reached from loading the module. *)
Inductive reachable : World → Prop :=
| reachable_load (w0 w : World) :
    load host w0 = (Normal m, w) → reachable w
| reachable_perform (a : action) (w : World) :
    reachable w → permitted w a → reachable (perform a w).

End Program.

(** ** More readers of the trace *)

Definition debug_calls (tr : list event) : list (string * list value) :=
  omap (λ ev, match ev with EvDebug format args => Some (format, args) | _ => None end) tr.

Definition pool_calls (tr : list event) : list (string * value) :=
  omap (λ ev, match ev with EvPool script o => Some (script, o) | _ => None end) tr.

Definition terminate_calls (tr : list event) : list (value * value) :=
  omap (λ ev, match ev with EvTerminate p force => Some (p, force) | _ => None end) tr.

(** The three messages of the constructor. *)
Definition MSG_NOT_ENOUGH_CORES : string :=
  "not enough CPU cores available (%d) to run multiple jobs; avoid --parallel on this machine".

Definition MSG_MORE_JOBS_THAN_CORES : string :=
  "%d concurrent job(s) requested, but only %d core(s) available".

Definition MSG_STARTING : string :=
  "run(): starting worker pool of max size %d, using node args: %s".

(** What the constructor logs once it has computed [maxWorkers]. *)
Definition constructor_log (host : Host) (maxWorkers : number) : list event :=
  (if number_lt maxWorkers (of_Z 2) then
     [EvDebug MSG_NOT_ENOUGH_CORES [VNumber (CPU_COUNT host)]]
   else if number_ge maxWorkers (CPU_COUNT host) then
     [EvDebug MSG_MORE_JOBS_THAN_CORES [VNumber maxWorkers; VNumber (CPU_COUNT host)]]
   else [])
  ++ [EvDebug MSG_STARTING [VNumber maxWorkers; VString (execArgv_joined host)]].

(** ** More engine primitives *)

(** [a - b].  The difference of two doubles is this number rounded, and
    rounding keeps its sign, which is all a sort looks at. *)
Definition number_sub (a b : number) : number :=
  match a, b with
  | NaN, _ | _, NaN => NaN
  | Infinity, Infinity | NegInfinity, NegInfinity => NaN
  | Infinity, _ | _, NegInfinity => Infinity
  | NegInfinity, _ | _, Infinity => NegInfinity
  | Finite x, Finite y => Finite (Qminus x y)
  end.

(** [a === b] on numbers. *)
Definition number_eq (a b : number) : bool :=
  match a, b with
  | Finite x, Finite y => Qeq_bool x y
  | Infinity, Infinity | NegInfinity, NegInfinity => true
  | _, _ => false
  end.

(** [a === b] *)
Definition StrictEquals (a b : value) : bool :=
  match a, b with
  | VUndefined, VUndefined | VNull, VNull => true
  | VBool x, VBool y => Bool.eqb x y
  | VNumber x, VNumber y => number_eq x y
  | VBigInt x, VBigInt y => Z.eqb x y
  | VString x, VString y => String.eqb x y
  | VSymbol x, VSymbol y => Pos.eqb x y
  | VObject x, VObject y | VFunction x, VFunction y => Pos.eqb x y
  | _, _ => false
  end.

(** The equality of [Set] and [Map]: [===], except that NaN equals NaN. *)
Definition SameValueZero (a b : value) : bool :=
  match a, b with
  | VNumber NaN, VNumber NaN => true
  | _, _ => StrictEquals a b
  end.

(** A [Set]: its elements in insertion order. *)
Definition Set_has (s : list value) (v : value) : bool :=
  existsb (SameValueZero v) s.

Definition Set_add (s : list value) (v : value) : list value :=
  if Set_has s v then s else s ++ [v].

(** [array.sort(compareFn)].  [compareFn(a, b) < 0] puts [a] first.  For a
    consistent [compareFn] the result is the sorted arrangement that keeps
    elements comparing equal in their original order (the sort is stable
    since ES2019); otherwise the order is left to the engine. *)
Fixpoint sort_insert {A} (compareFn : A → A → number) (x : A) (sorted : list A) : list A :=
  match sorted with
  | [] => [x]
  | y :: rest =>
      if number_lt (compareFn y x) (of_Z 0)
      then y :: sort_insert compareFn x rest
      else x :: sorted
  end.

Definition Array_sort {A} (compareFn : A → A → number) (array : list A) : list A :=
  foldr (sort_insert compareFn) [] array.

(** ** scripts: the supporters of the documentation site

    The script fetches every order of the collective page by page, turns
    each order into a supporter, keeps one supporter per account and sorts
    them into backers and sponsors. *)

Module Supporters.

Definition REQUIRED_KEYS : list string := ["totalDonations"; "slug"; "name"].

Definition graphqlPageSize : nat := 1000.

(** The variables of the GraphQL query. *)
Record Variables := {
  limit : nat;
  offset : nat;
  account_slug : value
}.

(** A node of [account.orders.nodes], with the fields the query asks for.
    [node_tier] is [None] for a null tier and the slug of the tier
    otherwise.  [fromAccount] and [totalDonations] are objects and
    [totalDonations.value] is a number, as the schema of the query has
    them; on a null in their place [nodeToSupporter] throws. *)
Record Order := {
  fromAccount_name : value;
  fromAccount_slug : value;
  fromAccount_website : value;
  fromAccount_imageUrl : value;
  totalDonations_value : number;
  node_tier : option value;
  createdAt : value
}.

(** The object literal of [nodeToSupporter]. *)
Record Supporter := {
  name : value;
  slug : value;
  website : value;
  avatar : value;
  tier : value;
  firstDonation : value;
  totalDonations : number
}.

Definition Supporter_keys : list string :=
  ["name"; "slug"; "website"; "avatar"; "tier"; "firstDonation"; "totalDonations"].

(** [key in item] *)
Definition has_key (item : Supporter) (key : string) : bool :=
  bool_decide (key ∈ Supporter_keys).

(** [item && typeof item === 'object']: a supporter is an object. *)
Definition is_object (item : Supporter) : bool := true.

(** [Array.isArray(supporters)] *)
Definition Array_isArray (supporters : list Supporter) : bool := true.

(** What the script returns. *)
Record Buckets := {
  backers : list Supporter;
  sponsors : list Supporter
}.

(** Why the script fails: the fetch failed, or one of its own checks did. *)
Inductive failure :=
| FetchFailed (e : exn)
| NotAnArray
| NotAnObject (item : Supporter)
| MissingKey (item : Supporter) (key : string).

(** What the script does to the outside, in order. *)
Inductive step :=
| Posted (variables : Variables)
| Logged (format : string) (args : list nat).

Section Script.

(** [needle('post', API_ENDPOINT, {query, variables}, {json: true})] followed
    by the reading of [result.body.data.account.orders.nodes]: the nodes of
    the page, or the error of the request or of that reading.  The product
    of two doubles is the engine's. *)
Context (needle : Variables → Completion (list Order))
        (number_mul : number → number → number).

Definition nodeToSupporter (node : Order) : Supporter :=
  {| name := fromAccount_name node;
     slug := fromAccount_slug node;
     website := fromAccount_website node;
     avatar := fromAccount_imageUrl node;
     tier := match node_tier node with
             | Some tier_slug => tier_slug
             | None => VString "sponsors"
             end;
     firstDonation := createdAt node;
     totalDonations := number_mul (totalDonations_value node) (of_Z 100) |}.

(** The [while (true)] loop of [getAllOrders].  [None]: the loop is still
    running when the fuel is used up. *)
Fixpoint getAllOrders_loop (fuel : nat) (allOrders : list Order)
    (variables : Variables) (log : list step)
  : option (Completion (list Order) * list step) :=
  match fuel with
  | O => None
  | S fuel =>
      match needle variables with
      | Throw e => Some (Throw e, log ++ [Posted variables])
      | Normal orders =>
          let log := log ++ [Posted variables] in
          let allOrders := allOrders ++ orders in
          let variables :=
            {| limit := limit variables;
               offset := (offset variables + graphqlPageSize)%nat;
               account_slug := account_slug variables |} in
          if Nat.ltb (length orders) graphqlPageSize then
            Some (Normal allOrders,
                  log ++ [Logged "retrieved %d orders" [length allOrders]])
          else
            getAllOrders_loop fuel allOrders variables
              (log ++ [Logged "loading page %d of orders..."
                         [(offset variables / graphqlPageSize)%nat]])
      end
  end.

Definition getAllOrders (fuel : nat) (slug_arg : value)
  : option (Completion (list Order) * list step) :=
  let slug := match slug_arg with VUndefined => VString "mochajs" | _ => slug_arg end in
  getAllOrders_loop fuel []
    {| limit := graphqlPageSize; offset := 0%nat; account_slug := slug |} [].

(** The callback of [reduce], with the set it closes over. *)
Definition keep_unseen (state : list value * list Supporter) (supporter : Supporter)
  : list value * list Supporter :=
  let '(seenSupporters, supporters) := state in
  if negb (Set_has seenSupporters (slug supporter)) then
    (Set_add seenSupporters (slug supporter), supporters ++ [supporter])
  else (seenSupporters, supporters).

Fixpoint check_keys (item : Supporter) (keys : list string) : failure + unit :=
  match keys with
  | [] => inr tt
  | key :: keys =>
      if negb (is_object item) then inl (NotAnObject item)
      else if negb (has_key item key) then inl (MissingKey item key)
      else check_keys item keys
  end.

Fixpoint check_items (items : list Supporter) : failure + unit :=
  match items with
  | [] => inr tt
  | item :: items =>
      match check_keys item REQUIRED_KEYS with
      | inl f => inl f
      | inr _ => check_items items
      end
  end.

(** [module.exports], from the point where the orders have arrived. *)
Definition with_orders (orders : list Order) : (failure + Buckets) * list step :=
  let supporters :=
    Array_sort (λ a b, number_sub (totalDonations b) (totalDonations a))
               (map nodeToSupporter orders) in
  let supporters := (foldl keep_unseen ([], []) supporters).2 in
  if negb (Array_isArray supporters) then (inl NotAnArray, [])
  else
    match check_items supporters with
    | inl f => (inl f, [])
    | inr _ =>
        let backers :=
          filter (λ supporter, StrictEquals (tier supporter) (VString "backers") = true)
                 supporters in
        let sponsors :=
          filter (λ supporter, StrictEquals (tier supporter) (VString "sponsors") = true)
                 supporters in
        (inr {| backers := backers; sponsors := sponsors |},
         [Logged "found %d backers and %d sponsors" [length backers; length sponsors]])
    end.


End Script.

(** The requests of a log, in order. *)
Definition posted (log : list step) : list Variables :=
  omap (λ st, match st with Posted variables => Some variables | _ => None end) log.

(** The variables of the request for page [i] (pages count from 0). *)
Definition page_request (slug : value) (i : nat) : Variables :=
  {| limit := graphqlPageSize; offset := (i * graphqlPageSize)%nat; account_slug := slug |}.

(** The slug that [getAllOrders] asks for. *)
Definition requested_slug (slug_arg : value) : value :=
  match slug_arg with VUndefined => VString "mochajs" | _ => slug_arg end.

(** A server that holds the orders [all] and serves the page it is asked
    for. *)
Definition paginated (all : list Order) : Variables → Completion (list Order) :=
  λ variables, Normal (take (limit variables) (drop (offset variables) all)).

(** Two supporters of the same account. *)
Definition same_account (a b : Supporter) : Prop :=
  SameValueZero (slug a) (slug b) = true.

(** No two supporters of a list are of the same account. *)
Inductive one_per_account : list Supporter → Prop :=
| one_per_account_nil : one_per_account []
| one_per_account_cons (s : Supporter) (rest : list Supporter) :
    Forall (λ t, ¬ same_account s t) rest →
    one_per_account rest →
    one_per_account (s :: rest).

(** The supporters of [l] whose account is neither in [seen] nor met
    earlier in [l]: what [reduce] with [keep_unseen] keeps. *)
Fixpoint unseen_first (seen : list value) (l : list Supporter) : list Supporter :=
  match l with
  | [] => []
  | s :: rest =>
      if Set_has seen (slug s) then unseen_first seen rest
      else s :: unseen_first (seen ++ [slug s]) rest
  end.

(** [s] is, among the supporters of its account in [l], the first of those
    with the largest total. *)
Definition first_largest_of_account (l : list Supporter) (s : Supporter) : Prop :=
  ∃ l1 l2,
    l = l1 ++ s :: l2 ∧
    Forall (λ t, same_account t s →
                 number_lt (totalDonations t) (totalDonations s) = true) l1 ∧
    Forall (λ t, same_account t s →
                 number_lt (totalDonations s) (totalDonations t) = false) l2.

(** [a] does not have less than [b]: the order of the result. *)
Definition not_less (a b : Supporter) : Prop :=
  number_lt (totalDonations a) (totalDonations b) = false.

End Supporters.

(** ** Test doubles, as in test/node-unit/pool.spec.js *)

Module Doubles.

Definition dquote : string := String (Ascii.ascii_of_nat 34) "".

Definition quoted (s : string) : string := dquote +:+ s +:+ dquote.

Definition json_scalar (v : value) : option string :=
  match v with
  | VString s => Some (quoted s)
  | VBool b => Some (if b then "true" else "false")
  | VNull => Some "null"
  | _ => None
  end.

(** Stand-in for [serialize-javascript] on an object whose values are
    strings without special characters, booleans or null, where it prints
    what [JSON.stringify] prints. *)
Definition json_flat (o : object) : string :=
  "{" +:+ String.concat ","
      (omap (λ kv, (λ j, quoted kv.1 +:+ ":" +:+ j) <$> json_scalar kv.2) (map_to_list o))
    +:+ "}".

Definition pool_ref : value := VObject 100%positive.
Definition result_ref : value := VObject 101%positive.
Definition stats_ref : value := VObject 102%positive.

(** The collaborators of the test suite: [pool.exec] resolves with
    [result], [pool.stats] returns [stats], [deserialize] returns undefined,
    [workerpool.pool] returns [pool]; the Serializer is [json_flat] on
    objects. *)
Definition stubs : Externals := {|
  serializeJavascript := λ _ hp v _,
    match v with
    | VObject l => Normal (json_flat (hp !!! l))
    | _ => Throw (TypeError "not an object")
    end;
  deserialize := λ _ _, Normal VUndefined;
  workerpool_pool := λ _ _ _ _, Normal pool_ref;
  Pool_exec := λ _ _ _ _, Fulfilled result_ref;
  Pool_stats := λ _ _, Normal stats_ref;
  Pool_terminate := λ _ _ _, Fulfilled VUndefined;
  StringToNumber := λ _, NaN;
  ObjectToNumber := λ _ _, Normal NaN
|}.

(** A Serializer that cannot represent anything. *)
Definition failing_serializer : Externals := {|
  serializeJavascript := λ _ _ _ _, Throw (TypeError "cannot serialize");
  deserialize := deserialize stubs;
  workerpool_pool := workerpool_pool stubs;
  Pool_exec := Pool_exec stubs;
  Pool_stats := Pool_stats stubs;
  Pool_terminate := Pool_terminate stubs;
  StringToNumber := StringToNumber stubs;
  ObjectToNumber := ObjectToNumber stubs
|}.

Definition host8 : Host := {|
  cpus_length := 8;
  process_execArgv := VObject 50%positive;
  execArgv_joined := "";
  WORKER_PATH := "/lib/worker.js"
|}.

Definition empty_world : World := {| heap := ∅; optionsCache := ∅; trace := [] |}.

(** The world right after the module was loaded on [host8]. *)
Definition world0 : World := (load host8 empty_world).2.

Definition bindings0 : Bindings := {| WORKER_POOL_DEFAULT_OPTS := VObject 2%positive |}.

(** ... and after the caller wrote [{foo: 'bar'}], which is object 3. *)
Definition world1 : World := (alloc {[ "foo" := VString "bar" ]} world0).2.

Definition foo_bar : value := VObject 3%positive.

Definition some_pool : WorkerPool := {| options := VObject 4%positive; _pool := pool_ref |}.

(** What [serialize-javascript] prints for [{foo: 'bar'}]. *)
Definition foo_bar_json : string :=
  "{" +:+ quoted "foo" +:+ ":" +:+ quoted "bar" +:+ "}".

Definition not_a_string : value := VNumber (of_Z 123).

Definition cannot_serialize : exn := TypeError "cannot serialize".

End Doubles.

(** ** More test doubles *)

Module MoreDoubles.

Import Doubles.


(** [world1] after the caller wrote [{maxWorkers: 0}], which is object 4, *)
Definition world2 : World :=
  (alloc {[ "maxWorkers" := VNumber (of_Z 0) ]} world1).2.

Definition zero_workers : value := VObject 4%positive.



(** [world1] once [{foo: 'bar'}] is cached. *)
Definition world1_cached : World := (serializeOptions stubs foo_bar world1).2.

Definition other_pool : WorkerPool :=
  {| options := VObject 6%positive; _pool := VObject 103%positive |}.


End MoreDoubles.

Module SupporterDoubles.

Import Supporters.

(** The product of two finite numbers, without rounding. *)
Definition product (a b : number) : number :=
  match a, b with
  | Finite x, Finite y => Finite (Qmult x y)
  | _, _ => NaN
  end.

Definition order (who : string) (amount : Z) (tier_slug : option string) (date : string)
  : Order :=
  {| fromAccount_name := VString who;
     fromAccount_slug := VString who;
     fromAccount_website := VNull;
     fromAccount_imageUrl := VNull;
     totalDonations_value := of_Z amount;
     node_tier := VString <$> tier_slug;
     createdAt := VString date |}.

Definition alice_2019 : Order := order "alice" 5 None "2019".
Definition alice_2020 : Order := order "alice" 5 (Some "backers") "2020".
Definition bob : Order := order "bob" 10 (Some "backers") "2018".
Definition carol : Order := order "carol" 20 (Some "gold") "2017".

Definition four_orders : list Order := [alice_2019; alice_2020; bob; carol].

(** A collective with 1500 orders. *)
Definition many_orders : list Order := replicate 1500 bob.

(** A server that ignores the offset and always answers with a full page. *)
Definition stuck_server : Variables → Completion (list Order) :=
  λ _, Normal (replicate graphqlPageSize bob).



(** The pages of [many_orders], as [paginated] serves them. *)
Definition pages_of_many (j : nat) : list Order :=
  take graphqlPageSize (drop (j * graphqlPageSize)%nat many_orders).


Definition amounts_of_four_known : Prop :=
  Forall (λ o : Order, isNaN (product (totalDonations_value o) (of_Z 100)) = false)
         four_orders.

End SupporterDoubles.

(** ** Basic facts *)

Lemma serializer_calls_app (t1 t2 : list event) :
  serializer_calls (t1 ++ t2) = serializer_calls t1 ++ serializer_calls t2.
Proof. apply omap_app. Qed.

Lemma exec_calls_app (t1 t2 : list event) :
  exec_calls (t1 ++ t2) = exec_calls t1 ++ exec_calls t2.
Proof. apply omap_app. Qed.

Lemma deserialize_calls_app (t1 t2 : list event) :
  deserialize_calls (t1 ++ t2) = deserialize_calls t1 ++ deserialize_calls t2.
Proof. apply omap_app. Qed.

Lemma stats_calls_app (t1 t2 : list event) :
  stats_calls (t1 ++ t2) = stats_calls t1 ++ stats_calls t2.
Proof. apply omap_app. Qed.

Create Rewrite HintDb trace_db.
#[global] Hint Rewrite serializer_calls_app exec_calls_app
  deserialize_calls_app stats_calls_app : trace_db.
#[global] Hint Rewrite <- app_assoc : trace_db.
#[global] Hint Rewrite app_nil_r : trace_db.

(** Unfolds the monad so that a piece of code can be run step by step. *)
Ltac unmonad :=
  repeat progress unfold async_fn, awaiting, bind, ret, throw, default_param, debug,
    optionsCache_new, optionsCache_has, optionsCache_set, optionsCache_get,
    call_serializeJavascript, call_deserialize, call_exec, call_stats,
    call_terminate, call_workerpool_pool in *.

Section CacheFacts.

Context (X : Externals).

(** A hit: the stored string comes back and nothing else happens. *)
Lemma serializeOptions_hit (v : value) (l : loc) (s : string) (w : World) :
  reference v = Some l →
  optionsCache w !! l = Some s →
  serializeOptions X v w = (Normal (VString s), w).
Proof.
  intros Hv Hl. unfold serializeOptions. unmonad.
  destruct v; try discriminate Hv; cbn in Hv; injection Hv as ->; cbn;
    rewrite Hl, bool_decide_eq_true_2 by eauto; cbn; rewrite Hl; reflexivity.
Qed.

(** A miss on which the Serializer returns. *)
Lemma serializeOptions_miss_ok (v : value) (l : loc) (s : string) (w : World) :
  reference v = Some l →
  optionsCache w !! l = None →
  serializeJavascript X (trace w) (heap w) v SERIALIZE_OPTS = Normal s →
  serializeOptions X v w =
    (Normal (VString s),
     {| heap := heap w;
        optionsCache := <[l := s]> (optionsCache w);
        trace := trace w ++
          [EvSerialize v SERIALIZE_OPTS;
           EvDebug "serializeOptions(): serialized options %O to: %s"
                   [v; VString s]] |}).
Proof.
  intros Hv Hl Hs. unfold serializeOptions. unmonad.
  destruct v; try discriminate Hv; cbn in Hv; injection Hv as ->; cbn;
    rewrite Hl, bool_decide_eq_false_2 by (intros [? ?]; congruence); cbn;
    fold SERIALIZE_OPTS; rewrite Hs; cbn;
    rewrite lookup_insert_eq; cbn;
    unfold emit, set_optionsCache; cbn; rewrite <- app_assoc; reflexivity.
Qed.

(** A miss on which the Serializer throws. *)
Lemma serializeOptions_miss_throw (v : value) (l : loc) (e : exn) (w : World) :
  reference v = Some l →
  optionsCache w !! l = None →
  serializeJavascript X (trace w) (heap w) v SERIALIZE_OPTS = Throw e →
  serializeOptions X v w = (Throw e, emit (EvSerialize v SERIALIZE_OPTS) w).
Proof.
  intros Hv Hl Hs. unfold serializeOptions. unmonad.
  destruct v; try discriminate Hv; cbn in Hv; injection Hv as ->; cbn;
    rewrite Hl, bool_decide_eq_false_2 by (intros [? ?]; congruence); cbn;
    fold SERIALIZE_OPTS; rewrite Hs; reflexivity.
Qed.

(** A value that is not an object is handed to the Serializer and then
    refused as a key, or the Serializer's error comes first; the cache is
    not touched either way. *)
Lemma serializeOptions_primitive (v : value) (w : World) :
  v ≠ VUndefined →
  reference v = None →
  heap (serializeOptions X v w).2 = heap w ∧
  optionsCache (serializeOptions X v w).2 = optionsCache w.
Proof.
  intros Hu Hv. unfold serializeOptions. unmonad.
  destruct v; try discriminate Hv; try contradiction; cbn;
    match goal with |- context [serializeJavascript X ?tr ?hp ?a ?o] =>
      destruct (serializeJavascript X tr hp a o) end; cbn; auto.
Qed.

(** [serializeOptions] never reaches the executor or the Deserializer, and
    it leaves the heap alone when it is given an object. *)
Lemma serializeOptions_frame (l : loc) (w : World) :
  let w' := (serializeOptions X (VObject l) w).2 in
  heap w' = heap w ∧
  exec_calls (trace w') = exec_calls (trace w) ∧
  deserialize_calls (trace w') = deserialize_calls (trace w).
Proof.
  destruct (optionsCache w !! l) as [s|] eqn:Hl.
  - rewrite (serializeOptions_hit (VObject l) l s w eq_refl Hl). auto.
  - destruct (serializeJavascript X (trace w) (heap w) (VObject l) SERIALIZE_OPTS)
      as [s|e] eqn:Hs.
    + rewrite (serializeOptions_miss_ok (VObject l) l s w eq_refl Hl Hs). simpl.
      autorewrite with trace_db. auto.
    + rewrite (serializeOptions_miss_throw (VObject l) l e w eq_refl Hl Hs). simpl.
      autorewrite with trace_db. auto.
Qed.

(** On an object, what [serializeOptions] returns is a string. *)
Lemma serializeOptions_object_returns_string
    (l : loc) (so : value) (w w1 : World) :
  serializeOptions X (VObject l) w = (Normal so, w1) → ∃ s, so = VString s.
Proof.
  intros Hso.
  destruct (optionsCache w !! l) as [s|] eqn:Hl.
  - rewrite (serializeOptions_hit (VObject l) l s w eq_refl Hl) in Hso.
    exists s. congruence.
  - destruct (serializeJavascript X (trace w) (heap w) (VObject l) SERIALIZE_OPTS)
      as [s|e] eqn:Hs.
    + rewrite (serializeOptions_miss_ok (VObject l) l s w eq_refl Hl Hs) in Hso.
      exists s. congruence.
    + rewrite (serializeOptions_miss_throw (VObject l) l e w eq_refl Hl Hs) in Hso.
      discriminate.
Qed.

End CacheFacts.

Arguments serializeOptions : simpl never.

Lemma next_object_fresh (w : World) : heap w !! next_object w = None.
Proof. unfold next_object. apply not_elem_of_dom. apply is_fresh. Qed.

Lemma next_object_uncached (w : World) :
  cache_wf w → optionsCache w !! next_object w = None.
Proof.
  intros Hwf. apply not_elem_of_dom. intros Hin.
  apply Hwf in Hin. apply elem_of_dom in Hin as [o Ho].
  rewrite next_object_fresh in Ho. discriminate.
Qed.

(** A valid [filepath] passes the guard of [run]. *)
Lemma filepath_guard_passes (f : string) :
  f ≠ "" →
  negb (ToBoolean (VString f)) || negb (String.eqb (typeof (VString f)) "string") = false.
Proof.
  intros Hf. simpl. destruct (String.eqb_spec f ""); [contradiction | reflexivity].
Qed.

Section OptionsCache.

Context (X : Externals).

(** C3. Memoization by identity: when [o] is not yet cached and the
    Serializer returns [s] for it, two calls of [serializeOptions] with the
    same reference [o] both return [s], and over the two calls the
    Serializer is invoked exactly once, for [o]. *)
Theorem serializeOptions_same_reference_twice (l : loc) (s : string) (w : World) :
  optionsCache w !! l = None →
  serializeJavascript X (trace w) (heap w) (VObject l) SERIALIZE_OPTS = Normal s →
  (serializeOptions X (VObject l) w).1 = Normal (VString s) ∧
  (serializeOptions X (VObject l) (serializeOptions X (VObject l) w).2).1
    = Normal (VString s) ∧
  serializer_calls
    (trace (serializeOptions X (VObject l) (serializeOptions X (VObject l) w).2).2)
    = serializer_calls (trace w) ++ [VObject l].
Proof.
  intros Hl Hs.
  rewrite (serializeOptions_miss_ok X (VObject l) l s w eq_refl Hl Hs). cbn [fst snd].
  rewrite (serializeOptions_hit X (VObject l) l s _ eq_refl)
    by (cbn; apply lookup_insert_eq).
  cbn [fst snd trace]. autorewrite with trace_db. cbn.
  rewrite ?app_nil_r. auto.
Qed.

(** The cache compares references, not contents: a second object is
    serialized on its own even when the first one is cached. *)
Lemma serializeOptions_other_reference (l l2 : loc) (s : string) (w : World) :
  l ≠ l2 →
  optionsCache w !! l = None →
  optionsCache w !! l2 = None →
  serializeJavascript X (trace w) (heap w) (VObject l) SERIALIZE_OPTS = Normal s →
  serializer_calls
    (trace (serializeOptions X (VObject l2) (serializeOptions X (VObject l) w).2).2)
    = serializer_calls (trace w) ++ [VObject l; VObject l2].
Proof.
  intros Hne Hl Hl2 Hs.
  rewrite (serializeOptions_miss_ok X (VObject l) l s w eq_refl Hl Hs). cbn [snd].
  match goal with |- context [serializeOptions X (VObject l2) ?w1] =>
    assert (Hc : optionsCache w1 !! l2 = None)
      by (cbn; rewrite lookup_insert_ne by done; exact Hl2);
    destruct (serializeJavascript X (trace w1) (heap w1) (VObject l2) SERIALIZE_OPTS)
      as [s2|e2] eqn:Hs2;
    [ rewrite (serializeOptions_miss_ok X (VObject l2) l2 s2 w1 eq_refl Hc Hs2)
    | rewrite (serializeOptions_miss_throw X (VObject l2) l2 e2 w1 eq_refl Hc Hs2) ]
  end; cbn; autorewrite with trace_db; cbn; rewrite ?app_nil_r;
  rewrite <- ?app_assoc; reflexivity.
Qed.

(** C6. [resetOptionsCache()] empties the cache at once, and the next
    [serializeOptions(o)] is a first call whatever was cached before: the
    Serializer is invoked for [o], its answer is the result, and the cache
    then holds that entry alone. *)
Theorem resetOptionsCache_then_serialize (l : loc) (w : World) :
  optionsCache (resetOptionsCache w).2 = ∅ ∧
  serializer_calls (trace (serializeOptions X (VObject l) (resetOptionsCache w).2).2)
    = serializer_calls (trace w) ++ [VObject l] ∧
  (serializeOptions X (VObject l) (resetOptionsCache w).2).1
    = cmap VString (serializeJavascript X (trace w) (heap w) (VObject l) SERIALIZE_OPTS) ∧
  optionsCache (serializeOptions X (VObject l) (resetOptionsCache w).2).2
    = match serializeJavascript X (trace w) (heap w) (VObject l) SERIALIZE_OPTS with
      | Normal s => {[ l := s ]}
      | Throw _ => ∅
      end.
Proof.
  split; [reflexivity|].
  set (w0 := (resetOptionsCache w).2).
  assert (Hc : optionsCache w0 !! l = None) by apply lookup_empty.
  change (heap w) with (heap w0). change (trace w) with (trace w0).
  destruct (serializeJavascript X (trace w0) (heap w0) (VObject l) SERIALIZE_OPTS)
    as [s|e] eqn:Hs.
  - rewrite (serializeOptions_miss_ok X (VObject l) l s w0 eq_refl Hc Hs). cbn.
    autorewrite with trace_db. cbn. rewrite ?app_nil_r. auto.
  - rewrite (serializeOptions_miss_throw X (VObject l) l e w0 eq_refl Hc Hs). cbn.
    autorewrite with trace_db. cbn. rewrite ?app_nil_r. auto.
Qed.

End OptionsCache.

Section Run.

Context (X : Externals).

(** What [run] does once [filepath] has passed the guard and the
    configuration is an object. *)
Lemma run_valid (this : WorkerPool) (f : string) (l : loc) (w : World) :
  f ≠ "" →
  run X this (VString f) (VObject l) w =
    match serializeOptions X (VObject l) w with
    | (Normal so, w1) =>
        let task := EvExec (_pool this) "run" [VString f; so] in
        match Pool_exec X (trace w1) (_pool this) "run" [VString f; so] with
        | Fulfilled raw =>
            (async (deserialize X (trace w1 ++ [task]) raw),
             emit (EvDeserialize raw) (emit task w1))
        | Rejected e => (Rejected e, emit task w1)
        end
    | (Throw e, w1) => (Rejected e, w1)
    end.
Proof.
  intros Hf. unfold run. unmonad.
  rewrite (filepath_guard_passes f Hf).
  destruct (serializeOptions X (VObject l) w) as [[so|e] w1]; [|reflexivity].
  destruct (Pool_exec X (trace w1) (_pool this) "run" [VString f; so]); reflexivity.
Qed.

(** C2. A [filepath] that is missing, the empty string or not a string makes
    [run] reject with the invalid-argument-type error, which names the
    parameter [filepath] and the expected type [string]; nothing is sent to
    the executor (the trace of outgoing calls is unchanged) and the cache is
    untouched, whatever the configuration argument is. *)
Theorem run_rejects_invalid_filepath
    (this : WorkerPool) (filepath options_arg : value) (w : World) :
  filepath = VUndefined ∨ filepath = VString "" ∨ typeof filepath ≠ "string" →
  (run X this filepath options_arg w).1
    = Rejected (MochaError "ERR_MOCHA_INVALID_ARG_TYPE"
                  "Expected a non-empty filepath" "filepath" "string") ∧
  exec_calls (trace (run X this filepath options_arg w).2) = exec_calls (trace w) ∧
  trace (run X this filepath options_arg w).2 = trace w ∧
  optionsCache (run X this filepath options_arg w).2 = optionsCache w.
Proof.
  intros Hbad.
  assert (Hguard :
    negb (ToBoolean filepath) || negb (String.eqb (typeof filepath) "string") = true).
  { destruct Hbad as [-> | [-> | Hty]]; [reflexivity | reflexivity |].
    destruct filepath; cbn; rewrite ?orb_true_r; try reflexivity.
    now contradiction Hty. }
  unfold run. unmonad.
  destruct options_arg; cbn; rewrite Hguard; cbn; auto.
Qed.

(** C4. With a non-empty string [filepath] and a configuration object whose
    serialized form is [so], one call of [run] adds exactly one task to what
    the executor was asked: ["run"] with the two arguments [filepath] and
    [so].  When the executor resolves with [raw], the Deserializer is called
    exactly once, on [raw], and what it produces is what [run] settles with;
    when the executor rejects, [run] rejects with the same error and the
    Deserializer is not called. *)
Theorem run_submits_one_task
    (this : WorkerPool) (f : string) (l : loc) (so : value) (w w1 : World) :
  f ≠ "" →
  serializeOptions X (VObject l) w = (Normal so, w1) →
  exec_calls (trace (run X this (VString f) (VObject l) w).2)
    = exec_calls (trace w) ++ [(_pool this, "run", [VString f; so])] ∧
  match Pool_exec X (trace w1) (_pool this) "run" [VString f; so] with
  | Fulfilled raw =>
      (run X this (VString f) (VObject l) w).1
        = async (deserialize X
                   (trace w1 ++ [EvExec (_pool this) "run" [VString f; so]]) raw) ∧
      deserialize_calls (trace (run X this (VString f) (VObject l) w).2)
        = deserialize_calls (trace w) ++ [raw]
  | Rejected e =>
      (run X this (VString f) (VObject l) w).1 = Rejected e ∧
      deserialize_calls (trace (run X this (VString f) (VObject l) w).2)
        = deserialize_calls (trace w)
  end.
Proof.
  intros Hf Hso.
  destruct (serializeOptions_frame X l w) as (_ & Hexec & Hdes).
  rewrite Hso in Hexec, Hdes. cbn [snd] in Hexec, Hdes.
  rewrite (run_valid this f l w Hf), Hso. cbn zeta.
  destruct (Pool_exec X (trace w1) (_pool this) "run" [VString f; so]) as [raw|e];
    cbn [fst snd emit trace]; autorewrite with trace_db; cbn;
    rewrite ?app_nil_r, Hexec, Hdes; auto.
Qed.

(** C5. When the Serializer throws [e] on a configuration object, that error
    is what [serializeOptions] throws and what [run] rejects with; the cache
    and the heap are as before, the executor is not reached, and the next
    [serializeOptions] call for the same reference invokes the Serializer
    again, as a first call does. *)
Theorem serializer_failure_is_not_cached
    (this : WorkerPool) (f : string) (l : loc) (e : exn) (w : World) :
  f ≠ "" →
  optionsCache w !! l = None →
  serializeJavascript X (trace w) (heap w) (VObject l) SERIALIZE_OPTS = Throw e →
  serializeOptions X (VObject l) w
    = (Throw e, emit (EvSerialize (VObject l) SERIALIZE_OPTS) w) ∧
  run X this (VString f) (VObject l) w
    = (Rejected e, emit (EvSerialize (VObject l) SERIALIZE_OPTS) w) ∧
  optionsCache (emit (EvSerialize (VObject l) SERIALIZE_OPTS) w) = optionsCache w ∧
  heap (emit (EvSerialize (VObject l) SERIALIZE_OPTS) w) = heap w ∧
  serializer_calls
    (trace (serializeOptions X (VObject l)
              (emit (EvSerialize (VObject l) SERIALIZE_OPTS) w)).2)
    = serializer_calls (trace w) ++ [VObject l; VObject l].
Proof.
  intros Hf Hl Hs.
  pose proof (serializeOptions_miss_throw X (VObject l) l e w eq_refl Hl Hs) as Hso.
  split; [exact Hso|].
  split; [rewrite (run_valid this f l w Hf), Hso; reflexivity|].
  split; [reflexivity|]. split; [reflexivity|].
  set (w' := emit (EvSerialize (VObject l) SERIALIZE_OPTS) w).
  assert (Hl' : optionsCache w' !! l = None) by exact Hl.
  destruct (serializeJavascript X (trace w') (heap w') (VObject l) SERIALIZE_OPTS)
    as [s2|e2] eqn:Hs2.
  - rewrite (serializeOptions_miss_ok X (VObject l) l s2 w' eq_refl Hl' Hs2). cbn.
    autorewrite with trace_db. cbn. rewrite ?app_nil_r, <- ?app_assoc. reflexivity.
  - rewrite (serializeOptions_miss_throw X (VObject l) l e2 w' eq_refl Hl' Hs2). cbn.
    autorewrite with trace_db. cbn. rewrite ?app_nil_r, <- ?app_assoc. reflexivity.
Qed.

(** C8. [stats()] hands back what the executor's [stats] call produced, as
    it is: the same value (the same reference when it is an object) or the
    same error; the executor is asked once, no object is created and the
    cache is untouched. *)
Theorem stats_is_pass_through (this : WorkerPool) (w : World) :
  (stats X this w).1 = Pool_stats X (trace w) (_pool this) ∧
  stats_calls (trace (stats X this w).2) = stats_calls (trace w) ++ [_pool this] ∧
  heap (stats X this w).2 = heap w ∧
  optionsCache (stats X this w).2 = optionsCache w.
Proof.
  unfold stats, call_stats. cbn. autorewrite with trace_db. auto.
Qed.

End Run.

Section OmittedConfiguration.

Context (X : Externals).

Lemma serializeOptions_omitted (w : World) :
  serializeOptions X VUndefined w
    = serializeOptions X (VObject (next_object w)) (with_empty_object w).
Proof. reflexivity. Qed.

Lemma run_omitted (this : WorkerPool) (filepath : value) (w : World) :
  run X this filepath VUndefined w
    = run X this filepath (VObject (next_object w)) (with_empty_object w).
Proof. reflexivity. Qed.

Lemma cache_wf_insert (l : loc) (s : string) (w w' : World) :
  is_Some (heap w' !! l) →
  dom (heap w) ⊆ dom (heap w') →
  optionsCache w' = <[l := s]> (optionsCache w) →
  cache_wf w → cache_wf w'.
Proof.
  unfold cache_wf. intros Hl Hsub -> Hwf. rewrite dom_insert_L.
  apply elem_of_dom in Hl. intros k [Hk | Hk]%elem_of_union.
  - apply elem_of_singleton in Hk. subst k. exact Hl.
  - apply Hsub, Hwf, Hk.
Qed.

(** C9. With the configuration argument omitted, [serializeOptions] and
    [run] work on an object that did not exist before the call, so the cache
    cannot hold it: the Serializer is invoked for that new reference and,
    once it has returned, the cache has gained an entry for it.  The cache
    is well formed again afterwards, so the same holds for the next call. *)
Theorem omitted_configuration_never_hits_cache
    (this : WorkerPool) (f s : string) (w : World) :
  f ≠ "" →
  cache_wf w →
  serializeJavascript X (trace w) (<[next_object w := ∅]> (heap w))
    (VObject (next_object w)) SERIALIZE_OPTS = Normal s →
  heap w !! next_object w = None ∧
  optionsCache w !! next_object w = None ∧
  (serializeOptions X VUndefined w).1 = Normal (VString s) ∧
  serializer_calls (trace (serializeOptions X VUndefined w).2)
    = serializer_calls (trace w) ++ [VObject (next_object w)] ∧
  optionsCache (serializeOptions X VUndefined w).2
    = <[next_object w := s]> (optionsCache w) ∧
  cache_wf (serializeOptions X VUndefined w).2 ∧
  serializer_calls (trace (run X this (VString f) VUndefined w).2)
    = serializer_calls (trace w) ++ [VObject (next_object w)] ∧
  optionsCache (run X this (VString f) VUndefined w).2
    = <[next_object w := s]> (optionsCache w) ∧
  cache_wf (run X this (VString f) VUndefined w).2.
Proof.
  intros Hf Hwf Hs.
  pose proof (next_object_fresh w) as Hfresh.
  pose proof (next_object_uncached w Hwf) as Hunc.
  set (l := next_object w) in *. set (w0 := with_empty_object w).
  assert (Hso := serializeOptions_miss_ok X (VObject l) l s w0 eq_refl Hunc Hs).
  assert (Hin : is_Some (<[l := ∅]> (heap w) !! l))
    by (rewrite lookup_insert_eq; eauto).
  assert (Hsub : dom (heap w) ⊆ dom (<[l := ∅]> (heap w)))
    by (rewrite dom_insert_L; apply union_subseteq_r).
  split; [exact Hfresh|]. split; [exact Hunc|].
  rewrite serializeOptions_omitted, run_omitted. fold l w0.
  rewrite (run_valid X this f l w0 Hf), Hso. cbn zeta.
  repeat split.
  - cbn. autorewrite with trace_db. cbn. rewrite ?app_nil_r. reflexivity.
  - eapply cache_wf_insert; [ | | | exact Hwf]; cbn; eauto.
  - destruct (Pool_exec X _ (_pool this) "run" _); cbn;
      autorewrite with trace_db; cbn; rewrite ?app_nil_r; reflexivity.
  - destruct (Pool_exec X _ (_pool this) "run" _); reflexivity.
  - destruct (Pool_exec X _ (_pool this) "run" _);
      (eapply cache_wf_insert; [ | | | exact Hwf]; cbn; eauto).
Qed.

End OmittedConfiguration.

Section Construction.
Context (X : Externals) (host : Host) (m : Bindings).

Lemma Math_max_one (v : value) (n : number) (w : World) :
  ToNumber X v w = (Normal n, w) →
  Math_max X [VNumber (of_Z 1); v] w = (Normal (max2 (of_Z 1) n), w).
Proof.
  intros Hn. unfold Math_max. cbn [ToNumbers]. unmonad. cbn [ToNumber].
  rewrite Hn. reflexivity.
Qed.

Lemma ToNumber_world (v : value) (w : World) : (ToNumber X v w).2 = w.
Proof. destruct v; reflexivity. Qed.


Lemma heap_after_constructor_spec (l : loc) (o : object) (mw : number) (hp : Heap) :
  hp !! l = Some o →
  heap_after_constructor l mw hp !! fresh (dom hp)
    = Some (<["maxWorkers" := VNumber mw]> o) ∧
  ∀ k x, hp !! k = Some x → heap_after_constructor l mw hp !! k = Some x.
Proof.
  intros Hl. unfold heap_after_constructor. cbn [Object_assign_from OwnEnumerable].
  set (l1 := fresh (dom hp)). set (hp1 := <[l1 := ∅]> hp).
  set (l2 := fresh (dom hp1)).
  assert (H1 : hp !! l1 = None) by (apply not_elem_of_dom; apply is_fresh).
  assert (H2 : hp1 !! l2 = None) by (apply not_elem_of_dom; apply is_fresh).
  assert (Hne12 : l1 ≠ l2).
  { intros E. rewrite <- E in H2. unfold hp1 in H2. rewrite lookup_insert_eq in H2. discriminate. }
  assert (Hk : ∀ k x, hp !! k = Some x → k ≠ l1 ∧ k ≠ l2).
  { intros k x Hkx. split; intros ->; [congruence|].
    unfold hp1 in H2. rewrite lookup_insert_ne in H2; [congruence|].
    intros E. rewrite <- E in Hkx. congruence. }
  destruct (Hk l o Hl) as [Hl1 Hl2].
  assert (Hl' : hp1 !! l = Some o) by (unfold hp1; rewrite lookup_insert_ne; done).
  rewrite !lookup_total_insert_eq.
  rewrite (lookup_total_insert_ne _ l1 l2) by done.
  rewrite lookup_total_insert_eq.
  rewrite (lookup_total_insert_ne _ l2 l) by done.
  rewrite (lookup_total_insert_ne _ l2 l1) by done.
  rewrite (lookup_total_correct _ _ _ Hl').
  unfold hp1 at 1. rewrite lookup_total_insert_eq.
  rewrite (right_id_L ∅ (∪) o).
  rewrite <- insert_union_singleton_l.
  split; [apply lookup_insert_eq|].
  intros k x Hkx. destruct (Hk k x Hkx) as [Hk1 Hk2].
  rewrite !lookup_insert_ne by done. unfold hp1.
  rewrite lookup_insert_ne by done. exact Hkx.
Qed.

Lemma constructor_object (l : loc) (o : object) (n : number) (w : World) :
  heap w !! l = Some o →
  (ToNumber X (default VUndefined (o !! "maxWorkers")) w).1 = Normal n →
  built X host (constructor X host m (VObject l) w).1
    (constructor X host m (VObject l) w).2 (VObject (next_object w)) ∧
  heap (constructor X host m (VObject l) w).2
    = heap_after_constructor l (max2 (of_Z 1) n) (heap w) ∧
  optionsCache (constructor X host m (VObject l) w).2 = optionsCache w.
Proof.
  intros Hl Hn.
  assert (Hn' : ToNumber X (default VUndefined (o !! "maxWorkers")) w = (Normal n, w)).
  { pose proof (ToNumber_world (default VUndefined (o !! "maxWorkers")) w) as Hw.
    destruct (ToNumber X _ w) as [c w2]. cbn in Hn, Hw. congruence. }
  unfold constructor. unmonad. unfold Get. cbn [OwnEnumerable].
  rewrite (lookup_total_correct _ _ _ Hl).
  rewrite (Math_max_one _ _ _ Hn').
  unfold built, heap_after_constructor, next_object.
  destruct (number_lt (max2 (of_Z 1) n) (of_Z 2));
    [| destruct (number_ge (max2 (of_Z 1) n) (CPU_COUNT host))];
    unfold alloc, Object_assign;
    cbn [heap trace optionsCache set_heap emit];
    match goal with |- context [workerpool_pool X ?tr ?hp ?p ?o] =>
      destruct (workerpool_pool X tr hp p o) eqn:Hpool end;
    cbn [fst snd heap trace optionsCache set_heap emit];
    (split; [eexists; split; [reflexivity | rewrite Hpool; reflexivity]
            | split; reflexivity]).
Qed.

Lemma constructor_default (d : loc) (w : World) :
  WORKER_POOL_DEFAULT_OPTS m = VObject d →
  constructor X host m VUndefined w = constructor X host m (VObject d) w.
Proof. intros Hd. unfold constructor. unmonad. rewrite Hd. reflexivity. Qed.

Lemma max2_one_of_Z (z : Z) : max2 (of_Z 1) (of_Z z) = of_Z (Z.max 1 z).
Proof.
  unfold max2, of_Z. cbn.
  destruct (Qle_bool (inject_Z z) (inject_Z 1)) eqn:Hle; cbn.
  - apply Qle_bool_iff in Hle. rewrite <- Zle_Qle in Hle.
    rewrite Z.max_l by exact Hle. reflexivity.
  - assert (Hlt : ¬ (z <= 1)%Z).
    { intros Hz. rewrite Zle_Qle in Hz. apply Qle_bool_iff in Hz. congruence. }
    rewrite Z.max_r by lia. reflexivity.
Qed.

(** The clamp does its work on every number that is not NaN. *)
Lemma max2_one_at_least_one (n : number) :
  isNaN n = false → at_least_one (max2 (of_Z 1) n).
Proof.
  unfold at_least_one, max2, of_Z. destruct n as [| | |q]; cbn; try done.
  intros _. destruct (Qle_bool q (inject_Z 1)) eqn:Hle; cbn; [reflexivity|].
  rewrite negb_involutive. apply Qle_bool_iff.
  destruct (Qlt_le_dec (inject_Z 1) q) as [Hlt|Hge].
  - apply Qlt_le_weak, Hlt.
  - apply Qle_bool_iff in Hge. congruence.
Qed.

Lemma DEFAULT_OPTS_maxWorkers (forkOpts : value) :
  DEFAULT_OPTS_literal host forkOpts !! "maxWorkers"
    = Some (VNumber (DEFAULT_MAX_WORKERS host)).
Proof. unfold DEFAULT_OPTS_literal. by simplify_map_eq. Qed.


(** [this.options.maxWorkers] after construction from the object [l]. *)
Lemma constructor_maxWorkers (l : loc) (o : object) (n : number) (w : World) :
  heap w !! l = Some o →
  (ToNumber X (default VUndefined (o !! "maxWorkers")) w).1 = Normal n →
  maxWorkers_of (constructor X host m (VObject l) w).2 (VObject (next_object w))
    = VNumber (max2 (of_Z 1) n).
Proof.
  intros Hl Hn.
  destruct (constructor_object l o n w Hl Hn) as (_ & Hheap & _).
  destruct (heap_after_constructor_spec l o (max2 (of_Z 1) n) (heap w) Hl) as [Hnew _].
  unfold maxWorkers_of. cbn [OwnEnumerable]. rewrite Hheap.
  fold (next_object w) in Hnew.
  rewrite (lookup_total_correct _ _ _ Hnew), lookup_insert_eq. reflexivity.
Qed.

(** A requested number that is not NaN is clamped to at least 1. *)
Lemma supplied_number_is_clamped (l : loc) (o : object) (n : number) (w : World) :
  heap w !! l = Some o →
  o !! "maxWorkers" = Some (VNumber n) →
  isNaN n = false →
  ∃ k, maxWorkers_of (constructor X host m (VObject l) w).2 (VObject (next_object w))
         = VNumber k ∧ at_least_one k.
Proof.
  intros Hl Ho Hn. exists (max2 (of_Z 1) n). split.
  - apply (constructor_maxWorkers l o n w Hl). rewrite Ho. reflexivity.
  - apply max2_one_at_least_one, Hn.
Qed.

(** [create()] without arguments: when [workerpool.pool] returns, so does
    [create], and the pool it returns has [maxWorkers] at least 1. *)
Lemma create_without_arguments (w : World) :
  module_loaded host m w →
  (∀ tr hp script o, ∃ p, workerpool_pool X tr hp script o = Normal p) →
  ∃ this k,
    (create X host m [] w).1 = Normal this ∧
    maxWorkers_of (create X host m [] w).2 (options this) = VNumber k ∧
    at_least_one k.
Proof.
  intros (d & forkOpts & Hd & Hheap) Hpool.
  change (create X host m [] w) with (constructor X host m VUndefined w).
  rewrite (constructor_default d w Hd).
  assert (Hn : (ToNumber X
                  (default VUndefined (DEFAULT_OPTS_literal host forkOpts !! "maxWorkers"))
                  w).1 = Normal (DEFAULT_MAX_WORKERS host))
    by (rewrite DEFAULT_OPTS_maxWorkers; reflexivity).
  destruct (constructor_object d _ _ w Hheap Hn) as ((tr & _ & Hres) & _ & _).
  destruct (Hpool tr (heap (constructor X host m (VObject d) w).2)
              (WORKER_PATH host) (VObject (next_object w))) as [p Hp].
  rewrite Hp in Hres. cbn [cmap] in Hres.
  eexists _, _. split; [exact Hres|]. cbn [options].
  split; [apply (constructor_maxWorkers d _ _ w Hheap Hn)|].
  apply max2_one_at_least_one. reflexivity.
Qed.

(** C1. The bound fails for a configuration that omits [maxWorkers]: the
    constructor computes [Math.max(1, undefined)], so the options it builds
    and hands to [workerpool.pool] have [maxWorkers] NaN, which is not at
    least 1. *)
Theorem omitted_maxWorkers_resolves_to_NaN (l : loc) (o : object) (w : World) :
  heap w !! l = Some o →
  o !! "maxWorkers" = None →
  built X host (constructor X host m (VObject l) w).1
    (constructor X host m (VObject l) w).2 (VObject (next_object w)) ∧
  maxWorkers_of (constructor X host m (VObject l) w).2 (VObject (next_object w))
    = VNumber NaN ∧
  ¬ at_least_one NaN.
Proof.
  intros Hl Ho.
  assert (Hn : (ToNumber X (default VUndefined (o !! "maxWorkers")) w).1 = Normal NaN)
    by (rewrite Ho; reflexivity).
  split; [apply (constructor_object l o NaN w Hl Hn)|].
  split; [apply (constructor_maxWorkers l o NaN w Hl Hn)|].
  unfold at_least_one. cbn. discriminate.
Qed.

(** C7. Construction without a Pool Configuration builds options whose
    [maxWorkers] is the larger of 1 and the CPU core count minus 1; on a
    host with 8 cores that is 7. *)
Theorem default_construction_maxWorkers (w : World) :
  module_loaded host m w →
  built X host (constructor X host m VUndefined w).1
    (constructor X host m VUndefined w).2 (VObject (next_object w)) ∧
  maxWorkers_of (constructor X host m VUndefined w).2 (VObject (next_object w))
    = VNumber (of_Z (Z.max 1 (Z.of_nat (cpus_length host) - 1))) ∧
  (cpus_length host = 8%nat →
   maxWorkers_of (constructor X host m VUndefined w).2 (VObject (next_object w))
     = VNumber (of_Z 7)).
Proof.
  intros (d & forkOpts & Hd & Hheap).
  rewrite (constructor_default d w Hd).
  assert (Hn : (ToNumber X
                  (default VUndefined (DEFAULT_OPTS_literal host forkOpts !! "maxWorkers"))
                  w).1 = Normal (DEFAULT_MAX_WORKERS host))
    by (rewrite DEFAULT_OPTS_maxWorkers; reflexivity).
  pose proof (constructor_maxWorkers d _ _ w Hheap Hn) as Hmw.
  unfold DEFAULT_MAX_WORKERS in Hmw. rewrite max2_one_of_Z in Hmw.
  split; [apply (constructor_object d _ _ w Hheap Hn)|].
  split; [exact Hmw|].
  intros H8. rewrite Hmw, H8. reflexivity.
Qed.

(** C10. A Pool Configuration supplied by the caller is not completed from
    the defaults: the options the constructor builds are a new object that
    holds the caller's properties with [maxWorkers] set to the clamped
    number, so every other key reads as it does in the caller's object, and
    a key the caller left out (such as [workerType] or [forkOpts]) is
    absent.  The caller's object itself is unchanged. *)
Theorem supplied_options_are_not_merged_with_defaults
    (l : loc) (o : object) (n : number) (w : World) :
  heap w !! l = Some o →
  (ToNumber X (default VUndefined (o !! "maxWorkers")) w).1 = Normal n →
  ∃ o' : object,
    built X host (constructor X host m (VObject l) w).1
      (constructor X host m (VObject l) w).2 (VObject (next_object w)) ∧
    next_object w ≠ l ∧
    heap (constructor X host m (VObject l) w).2 !! next_object w = Some o' ∧
    o' = <["maxWorkers" := VNumber (max2 (of_Z 1) n)]> o ∧
    (∀ key, key ≠ "maxWorkers" → o' !! key = o !! key) ∧
    heap (constructor X host m (VObject l) w).2 !! l = Some o.
Proof.
  intros Hl Hn.
  destruct (constructor_object l o n w Hl Hn) as (Hbuilt & Hheap & _).
  destruct (heap_after_constructor_spec l o (max2 (of_Z 1) n) (heap w) Hl)
    as [Hnew Hold].
  fold (next_object w) in Hnew.
  exists (<["maxWorkers" := VNumber (max2 (of_Z 1) n)]> o).
  split; [exact Hbuilt|].
  split; [intros E; pose proof (next_object_fresh w) as Hf; rewrite E in Hf; congruence|].
  rewrite Hheap. split; [exact Hnew|]. split; [reflexivity|].
  split; [intros key Hkey; apply lookup_insert_ne; congruence|].
  apply Hold, Hl.
Qed.

End Construction.


Section Invariants.
Context (X : Externals) (host : Host) (m : Bindings).

Lemma heap_grows_refl w : heap_grows w w.
Proof. intros k x H. exact H. Qed.

Lemma heap_grows_trans w1 w2 w3 : heap_grows w1 w2 → heap_grows w2 w3 → heap_grows w1 w3.
Proof. intros H12 H23 k x H. apply H23, H12, H. Qed.

Lemma heap_grows_emit ev w : heap_grows w (emit ev w).
Proof. intros k x H. exact H. Qed.

Lemma heap_grows_alloc o w : heap_grows w (alloc o w).2.
Proof.
  intros k x H. cbn. rewrite lookup_insert_ne; [exact H|].
  intros <-. pose proof (next_object_fresh w) as Hf. unfold next_object in Hf. congruence.
Qed.

Lemma heap_grows_dom w w' : heap_grows w w' → dom (heap w) ⊆ dom (heap w').
Proof.
  intros Hg k Hk. apply elem_of_dom in Hk as [x Hx]. apply elem_of_dom. eauto.
Qed.

Lemma cache_wf_grows w w' :
  heap_grows w w' → optionsCache w' = optionsCache w → cache_wf w → cache_wf w'.
Proof.
  unfold cache_wf. intros Hg -> Hwf. etrans; [exact Hwf|]. apply heap_grows_dom, Hg.
Qed.

Lemma module_loaded_grows w w' :
  heap_grows w w' → module_loaded host m w → module_loaded host m w'.
Proof.
  intros Hg (d & forkOpts & Hd & Hheap). exists d, forkOpts. split; [exact Hd|].
  apply Hg, Hheap.
Qed.

Lemma Object_assign_from_other (target k : loc) (sources : list value) (hp : Heap) :
  k ≠ target → Object_assign_from target sources hp !! k = hp !! k.
Proof.
  intros Hk. revert hp. induction sources as [|src rest IH]; intros hp; [reflexivity|].
  cbn [Object_assign_from]. rewrite IH. apply lookup_insert_ne. congruence.
Qed.

Lemma default_param_ret (arg v : value) (w : World) :
  default_param arg (ret v) w
    = (Normal (match arg with VUndefined => v | _ => arg end), w).
Proof. destruct arg; reflexivity. Qed.

Lemma Get_world (v : value) (key : string) (w : World) : (Get v key w).2 = w.
Proof. destruct v; reflexivity. Qed.

Lemma ToNumbers_world (vs : list value) (w : World) : (ToNumbers X vs w).2 = w.
Proof.
  induction vs as [|v vs IH]; [reflexivity|]. cbn [ToNumbers]. unmonad.
  pose proof (ToNumber_world X v w) as Hv.
  destruct (ToNumber X v w) as [[n|e] w1]; cbn in Hv; subst w1; [|reflexivity].
  destruct (ToNumbers X vs w) as [[ns|e] w2]; cbn in IH; subst w2; reflexivity.
Qed.

Lemma Math_max_world (vs : list value) (w : World) : (Math_max X vs w).2 = w.
Proof.
  unfold Math_max. unmonad. pose proof (ToNumbers_world vs w) as H.
  destruct (ToNumbers X vs w) as [[ns|e] w1]; cbn in H; subst w1; reflexivity.
Qed.

Lemma constructor_frame (opts_arg : value) (w : World) :
  heap_grows w (constructor X host m opts_arg w).2 ∧
  optionsCache (constructor X host m opts_arg w).2 = optionsCache w.
Proof.
  remember (constructor X host m opts_arg w) as r eqn:Hr.
  unfold constructor in Hr.
  unfold bind at 1 in Hr. rewrite default_param_ret in Hr.
  set (opts := match opts_arg with VUndefined => _ | _ => _ end) in Hr.
  unfold bind at 1 in Hr. pose proof (Get_world opts "maxWorkers" w) as HG.
  destruct (Get opts "maxWorkers" w) as [[requested|e] w1]; cbn in HG; subst w1;
    [|subst r; split; [apply heap_grows_refl | reflexivity]].
  unfold bind at 1 in Hr.
  pose proof (Math_max_world [VNumber (of_Z 1); requested] w) as HM.
  destruct (Math_max X [VNumber (of_Z 1); requested] w) as [[mw|e] w1];
    cbn in HM; subst w1; [|subst r; split; [apply heap_grows_refl | reflexivity]].
  unmonad. unfold alloc, Object_assign in Hr.
  assert (Hgoal : ∀ hp : Heap, hp = heap w →
    ∀ k x, heap w !! k = Some x →
      Object_assign_from (fresh (dom hp))
        [opts; VObject (fresh (dom (<[fresh (dom hp) := ∅]> hp)))]
        (<[fresh (dom (<[fresh (dom hp) := ∅]> hp)) := {[ "maxWorkers" := VNumber mw ]}]>
           (<[fresh (dom hp) := ∅]> hp)) !! k
      = Some x).
  { intros hp -> k x Hk.
    assert (H1 : heap w !! fresh (dom (heap w)) = None)
      by (apply not_elem_of_dom; apply is_fresh).
    assert (H2 : <[fresh (dom (heap w)) := ∅]> (heap w)
                   !! fresh (dom (<[fresh (dom (heap w)) := ∅]> (heap w))) = None)
      by (apply not_elem_of_dom; apply is_fresh).
    assert (Hk1 : k ≠ fresh (dom (heap w))) by congruence.
    rewrite Object_assign_from_other by exact Hk1.
    rewrite lookup_insert_ne.
    - rewrite lookup_insert_ne by congruence. exact Hk.
    - intros E. rewrite E, lookup_insert_ne in H2 by congruence. congruence. }
  destruct (number_lt mw (of_Z 2));
    [| destruct (number_ge mw (CPU_COUNT host))];
    cbn [heap trace optionsCache set_heap emit] in Hr;
    match type of Hr with context [workerpool_pool X ?tr ?hp ?p ?o] =>
      destruct (workerpool_pool X tr hp p o) end;
    subst r; cbn [fst snd heap trace optionsCache set_heap emit];
    (split; [intros k x Hk; apply (Hgoal (heap w) eq_refl k x Hk) | reflexivity]).
Qed.


Lemma serializeOptions_reference_inv (v : value) (l : loc) (w : World) :
  reference v = Some l →
  is_Some (heap w !! l) →
  heap_grows w (serializeOptions X v w).2 ∧
  (cache_wf w → cache_wf (serializeOptions X v w).2).
Proof.
  intros Hv Hin.
  destruct (optionsCache w !! l) as [s|] eqn:Hl.
  - rewrite (serializeOptions_hit X v l s w Hv Hl).
    split; [apply heap_grows_refl | auto].
  - destruct (serializeJavascript X (trace w) (heap w) v SERIALIZE_OPTS)
      as [s|e] eqn:Hs.
    + rewrite (serializeOptions_miss_ok X v l s w Hv Hl Hs). cbn [snd].
      split; [intros k x Hk; exact Hk|].
      apply (cache_wf_insert l s w); [exact Hin | reflexivity | reflexivity].
    + rewrite (serializeOptions_miss_throw X v l e w Hv Hl Hs).
      split; [apply heap_grows_emit | auto].
Qed.

Lemma cache_wf_with_empty_object (w : World) :
  cache_wf w → cache_wf (with_empty_object w).
Proof. apply cache_wf_grows; [apply (heap_grows_alloc ∅ w) | reflexivity]. Qed.

Lemma known_next_object (w : World) :
  is_Some (heap (with_empty_object w) !! next_object w).
Proof. cbn. rewrite lookup_insert_eq. eauto. Qed.

Lemma serializeOptions_given_inv (v : value) (w : World) :
  v ≠ VUndefined →
  known w v →
  heap_grows w (serializeOptions X v w).2 ∧
  (cache_wf w → cache_wf (serializeOptions X v w).2).
Proof.
  intros Hu Hv. unfold known in Hv.
  destruct (reference v) as [l|] eqn:Hr.
  - exact (serializeOptions_reference_inv v l w Hr Hv).
  - destruct (serializeOptions_primitive X v w Hu Hr) as [Hh Hc]. split.
    + intros k x Hk. rewrite Hh. exact Hk.
    + unfold cache_wf. rewrite Hh, Hc. auto.
Qed.

Lemma serializeOptions_inv (v : value) (w : World) :
  known w v →
  heap_grows w (serializeOptions X v w).2 ∧
  (cache_wf w → cache_wf (serializeOptions X v w).2).
Proof.
  intros Hv.
  destruct v;
    [| apply serializeOptions_given_inv; [discriminate | exact Hv] ..].
  rewrite serializeOptions_omitted.
  destruct (serializeOptions_reference_inv (VObject (next_object w)) (next_object w)
              (with_empty_object w) eq_refl (known_next_object w)) as [Hg Hc].
  split.
  - eapply heap_grows_trans; [apply (heap_grows_alloc ∅ w) | exact Hg].
  - intros Hwf. apply Hc, cache_wf_with_empty_object, Hwf.
Qed.

Lemma run_given_inv (this : WorkerPool) (filepath v : value) (w : World) :
  v ≠ VUndefined →
  known w v →
  heap_grows w (run X this filepath v w).2 ∧
  (cache_wf w → cache_wf (run X this filepath v w).2).
Proof.
  intros Hv Hk. pose proof (serializeOptions_inv v w Hk) as Hso.
  assert (Hd : default_param v (alloc ∅) w = (Normal v, w))
    by (destruct v; [contradiction | reflexivity..]).
  remember (run X this filepath v w) as r eqn:Hr.
  unfold run, async_fn in Hr. unfold bind at 1 in Hr. rewrite Hd in Hr. clear Hd.
  unmonad.
  destruct (negb (ToBoolean filepath) || negb (String.eqb (typeof filepath) "string"));
    [subst r; split; [apply heap_grows_refl | auto]|].
  destruct (serializeOptions X v w) as [[so|e] w1]; cbn [snd] in Hso;
    [|subst r; exact Hso].
  destruct (Pool_exec X (trace w1) (_pool this) "run" [filepath; so]);
    subst r; exact Hso.
Qed.

Lemma run_inv (this : WorkerPool) (filepath v : value) (w : World) :
  known w v →
  heap_grows w (run X this filepath v w).2 ∧
  (cache_wf w → cache_wf (run X this filepath v w).2).
Proof.
  intros Hk.
  destruct v;
    [| apply run_given_inv; [discriminate | exact Hk] ..].
  rewrite run_omitted.
  destruct (run_given_inv this filepath (VObject (next_object w))
              (with_empty_object w) ltac:(discriminate) (known_next_object w))
    as [Hg Hc].
  split.
  - eapply heap_grows_trans; [apply (heap_grows_alloc ∅ w) | exact Hg].
  - intros Hwf. apply Hc, cache_wf_with_empty_object, Hwf.
Qed.

Lemma terminate_store (this : WorkerPool) (force : value) (w : World) :
  heap (terminate X this force w).2 = heap w ∧
  optionsCache (terminate X this force w).2 = optionsCache w.
Proof.
  unfold terminate. unmonad.
  destruct force; cbn; auto.
Qed.

Lemma load_establishes (w0 w : World) :
  load host w0 = (Normal m, w) → cache_wf w ∧ module_loaded host m w.
Proof.
  unfold load. unmonad. unfold alloc. cbn. intros Hload.
  injection Hload as <- <-. split.
  - unfold cache_wf. cbn. rewrite dom_empty_L. apply empty_subseteq.
  - eexists _, _. cbn. split; [reflexivity|]. apply lookup_insert_eq.
Qed.

(** Whatever callers do, the keys of the cache stay objects of the heap and
    the default options stay what the module wrote at load time. *)
Theorem reachable_invariant (w : World) :
  reachable X host m w → cache_wf w ∧ module_loaded host m w.
Proof.
  induction 1 as [w0 w Hload | a w Hreach [IHc IHm] Hperm].
  - exact (load_establishes w0 w Hload).
  - destruct a as [o | l key v | args | this filepath v | this | this force | v | ];
      cbn [perform permitted] in *.
    + pose proof (heap_grows_alloc o w) as Hg.
      split; [exact (cache_wf_grows _ _ Hg eq_refl IHc) | exact (module_loaded_grows _ _ Hg IHm)].
    + destruct Hperm as [[x Hx] Hne]. split.
      * unfold cache_wf in *. cbn. rewrite dom_insert_L.
        intros k Hk. apply elem_of_union_r, IHc, Hk.
      * destruct IHm as (d & forkOpts & Hd & Hheap). exists d, forkOpts.
        split; [exact Hd|]. cbn. rewrite lookup_insert_ne; [exact Hheap|].
        intros ->. apply Hne, Hd.
    + destruct (constructor_frame (default VUndefined (head args)) w) as [Hg Hc].
      split; [exact (cache_wf_grows _ _ Hg Hc IHc) | exact (module_loaded_grows _ _ Hg IHm)].
    + destruct (run_inv this filepath v w Hperm) as [Hg Hc].
      split; [exact (Hc IHc) | exact (module_loaded_grows _ _ Hg IHm)].
    + split; [exact IHc | exact IHm].
    + destruct (terminate_store this force w) as [Hh Hc].
      assert (Hg : heap_grows w (terminate X this force w).2)
        by (intros k x Hk; rewrite Hh; exact Hk).
      split; [exact (cache_wf_grows _ _ Hg Hc IHc) | exact (module_loaded_grows _ _ Hg IHm)].
    + destruct (serializeOptions_inv v w Hperm) as [Hg Hc].
      split; [exact (Hc IHc) | exact (module_loaded_grows _ _ Hg IHm)].
    + split; [|exact IHm].
      unfold cache_wf. cbn. rewrite dom_empty_L. apply empty_subseteq.
Qed.

End Invariants.

(** ** More about the pool *)

Lemma debug_calls_app (t1 t2 : list event) :
  debug_calls (t1 ++ t2) = debug_calls t1 ++ debug_calls t2.
Proof. apply omap_app. Qed.

Lemma pool_calls_app (t1 t2 : list event) :
  pool_calls (t1 ++ t2) = pool_calls t1 ++ pool_calls t2.
Proof. apply omap_app. Qed.

Lemma terminate_calls_app (t1 t2 : list event) :
  terminate_calls (t1 ++ t2) = terminate_calls t1 ++ terminate_calls t2.
Proof. apply omap_app. Qed.

Lemma number_lt_of_Z (a b : Z) : number_lt (of_Z a) (of_Z b) = (a <? b)%Z.
Proof.
  unfold of_Z. cbn. destruct (Z.ltb_spec a b) as [Hlt|Hge].
  - destruct (Qle_bool (inject_Z b) (inject_Z a)) eqn:Hle; [|reflexivity].
    apply Qle_bool_iff in Hle. rewrite <- Zle_Qle in Hle. lia.
  - assert (Hle : Qle_bool (inject_Z b) (inject_Z a) = true)
      by (apply Qle_bool_iff; rewrite <- Zle_Qle; exact Hge).
    rewrite Hle. reflexivity.
Qed.

Lemma number_ge_of_Z (a b : Z) : number_ge (of_Z a) (of_Z b) = (b <=? a)%Z.
Proof.
  unfold number_ge. rewrite number_lt_of_Z. cbn.
  destruct (Z.ltb_spec a b), (Z.leb_spec b a); reflexivity || lia.
Qed.

Section MoreConstruction.

Context (X : Externals) (host : Host) (m : Bindings).

(** The trace of a construction from the object [l]. *)
Lemma constructor_trace (l : loc) (o : object) (n : number) (w : World) :
  heap w !! l = Some o →
  (ToNumber X (default VUndefined (o !! "maxWorkers")) w).1 = Normal n →
  trace (constructor X host m (VObject l) w).2
    = trace w ++ constructor_log host (max2 (of_Z 1) n)
        ++ [EvPool (WORKER_PATH host) (VObject (next_object w))].
Proof.
  intros Hl Hn.
  assert (Hn' : ToNumber X (default VUndefined (o !! "maxWorkers")) w = (Normal n, w)).
  { pose proof (ToNumber_world X (default VUndefined (o !! "maxWorkers")) w) as Hw.
    destruct (ToNumber X _ w) as [c w2]. cbn in Hn, Hw. congruence. }
  unfold constructor. unmonad. unfold Get. cbn [OwnEnumerable].
  rewrite (lookup_total_correct _ _ _ Hl).
  rewrite (Math_max_one X _ _ _ Hn').
  unfold constructor_log, next_object.
  destruct (number_lt (max2 (of_Z 1) n) (of_Z 2));
    [| destruct (number_ge (max2 (of_Z 1) n) (CPU_COUNT host))];
    unfold alloc, Object_assign;
    cbn [heap trace optionsCache set_heap emit];
    match goal with |- context [workerpool_pool X ?tr ?hp ?p ?o] =>
      destruct (workerpool_pool X tr hp p o) end;
    cbn [fst snd heap trace optionsCache set_heap emit];
    rewrite <- ?app_assoc; reflexivity.
Qed.

(** X1. On a default construction the warning about too few cores is logged
    exactly when the host has at most two cores; the warning about more jobs
    than cores is never logged; the message that the pool starts always is,
    with the resolved [maxWorkers]. *)
Theorem default_construction_log (w : World) :
  module_loaded host m w →
  debug_calls (trace (constructor X host m VUndefined w).2)
    = debug_calls (trace w)
      ++ (if (cpus_length host <=? 2)%nat
          then [(MSG_NOT_ENOUGH_CORES, [VNumber (CPU_COUNT host)])]
          else [])
      ++ [(MSG_STARTING,
           [VNumber (of_Z (Z.max 1 (Z.of_nat (cpus_length host) - 1)));
            VString (execArgv_joined host)])].
Proof.
  intros (d & forkOpts & Hd & Hheap).
  rewrite (constructor_default X host m d w Hd).
  assert (Hn : (ToNumber X
                  (default VUndefined (DEFAULT_OPTS_literal host forkOpts !! "maxWorkers"))
                  w).1 = Normal (DEFAULT_MAX_WORKERS host))
    by (rewrite DEFAULT_OPTS_maxWorkers; reflexivity).
  rewrite (constructor_trace d _ _ w Hheap Hn).
  unfold DEFAULT_MAX_WORKERS. rewrite max2_one_of_Z.
  unfold constructor_log, CPU_COUNT.
  rewrite number_lt_of_Z, number_ge_of_Z.
  rewrite !debug_calls_app.
  destruct (Nat.leb_spec (cpus_length host) 2) as [Hle|Hgt].
  - replace (Z.max 1 (Z.of_nat (cpus_length host) - 1) <? 2)%Z with true
      by (symmetry; apply Z.ltb_lt; lia).
    reflexivity.
  - replace (Z.max 1 (Z.of_nat (cpus_length host) - 1) <? 2)%Z with false
      by (symmetry; apply Z.ltb_ge; lia).
    replace (Z.of_nat (cpus_length host) <=? Z.max 1 (Z.of_nat (cpus_length host) - 1))%Z
      with false by (symmetry; apply Z.leb_gt; lia).
    reflexivity.
Qed.

(** X2. When the Pool Configuration has no [maxWorkers], the constructor
    logs neither warning: it announces a pool of max size NaN and asks
    [workerpool.pool] for it. *)
Theorem omitted_maxWorkers_log (l : loc) (o : object) (w : World) :
  heap w !! l = Some o →
  o !! "maxWorkers" = None →
  debug_calls (trace (constructor X host m (VObject l) w).2)
    = debug_calls (trace w)
      ++ [(MSG_STARTING, [VNumber NaN; VString (execArgv_joined host)])] ∧
  pool_calls (trace (constructor X host m (VObject l) w).2)
    = pool_calls (trace w) ++ [(WORKER_PATH host, VObject (next_object w))].
Proof.
  intros Hl Ho.
  assert (Hn : (ToNumber X (default VUndefined (o !! "maxWorkers")) w).1 = Normal NaN)
    by (rewrite Ho; reflexivity).
  rewrite (constructor_trace l o NaN w Hl Hn).
  rewrite !debug_calls_app, !pool_calls_app. cbn. rewrite ?app_nil_r. auto.
Qed.

(** X3. A requested [maxWorkers] that is a number other than NaN is kept
    when it is above 1 and replaced by 1 otherwise. *)
Theorem supplied_maxWorkers_value (l : loc) (o : object) (n : number) (w : World) :
  heap w !! l = Some o →
  o !! "maxWorkers" = Some (VNumber n) →
  isNaN n = false →
  maxWorkers_of (constructor X host m (VObject l) w).2 (VObject (next_object w))
    = VNumber (if number_lt (of_Z 1) n then n else of_Z 1) ∧
  at_least_one (if number_lt (of_Z 1) n then n else of_Z 1).
Proof.
  intros Hl Ho Hn.
  assert (Hmax : max2 (of_Z 1) n = if number_lt (of_Z 1) n then n else of_Z 1)
    by (unfold max2; rewrite Hn; reflexivity).
  rewrite <- Hmax. split.
  - apply (constructor_maxWorkers X host m l o n w Hl). rewrite Ho. reflexivity.
  - apply max2_one_at_least_one, Hn.
Qed.


(** X5. Whatever its argument, and whether it returns or throws, the
    constructor leaves the options cache alone and changes no object that
    existed before: neither the caller's configuration nor the defaults. *)
Theorem constructor_changes_nothing_existing (opts_arg : value) (w : World) :
  optionsCache (constructor X host m opts_arg w).2 = optionsCache w ∧
  ∀ k x, heap w !! k = Some x →
         heap (constructor X host m opts_arg w).2 !! k = Some x.
Proof.
  destruct (constructor_frame X host m opts_arg w) as [Hg Hc]. split; [exact Hc|].
  exact Hg.
Qed.

End MoreConstruction.

Section MoreOfTheCache.

Context (X : Externals).

(** X6. [terminate] asks the executor to terminate exactly once, with
    [false] when no argument is given and with the argument as it is
    otherwise, and settles as the executor does; it submits no task and
    leaves heap and cache alone. *)
Theorem terminate_delegates (this : WorkerPool) (force_arg : value) (w : World) :
  (terminate X this force_arg w).1
    = Pool_terminate X (trace w) (_pool this)
        (match force_arg with VUndefined => VBool false | _ => force_arg end) ∧
  terminate_calls (trace (terminate X this force_arg w).2)
    = terminate_calls (trace w)
      ++ [(_pool this, match force_arg with VUndefined => VBool false | _ => force_arg end)] ∧
  exec_calls (trace (terminate X this force_arg w).2) = exec_calls (trace w) ∧
  heap (terminate X this force_arg w).2 = heap w ∧
  optionsCache (terminate X this force_arg w).2 = optionsCache w.
Proof.
  unfold terminate. unmonad.
  destruct force_arg; cbn;
    rewrite terminate_calls_app, exec_calls_app; cbn; rewrite ?app_nil_r;
    (split; [destruct (Pool_terminate X _ _ _); reflexivity | auto]).
Qed.


(** X8. The cache does not follow the object: once [o] is cached, any
    change of the heap (a property of [o] written by the caller, say) leaves
    the answer of [serializeOptions(o)] the same string, and the Serializer
    is not asked again. *)
Theorem cached_string_survives_mutation
    (l : loc) (s : string) (hp : Heap) (w : World) :
  optionsCache w !! l = None →
  serializeJavascript X (trace w) (heap w) (VObject l) SERIALIZE_OPTS = Normal s →
  serializeOptions X (VObject l) (set_heap hp (serializeOptions X (VObject l) w).2)
    = (Normal (VString s), set_heap hp (serializeOptions X (VObject l) w).2).
Proof.
  intros Hl Hs.
  rewrite (serializeOptions_miss_ok X (VObject l) l s w eq_refl Hl Hs). cbn [snd].
  apply (serializeOptions_hit X (VObject l) l s); [reflexivity|].
  cbn. apply lookup_insert_eq.
Qed.

Lemma serializeOptions_keeps_entries (v : value) (l' : loc) (s' : string) (w : World) :
  optionsCache w !! l' = Some s' →
  optionsCache (serializeOptions X v w).2 !! l' = Some s'.
Proof.
  intros Hl'.
  assert (Hgiven : ∀ v w, v ≠ VUndefined → optionsCache w !! l' = Some s' →
            optionsCache (serializeOptions X v w).2 !! l' = Some s').
  { clear. intros v w Hu Hl'. destruct (reference v) as [l|] eqn:Hr.
    - destruct (optionsCache w !! l) as [s|] eqn:Hl.
      + rewrite (serializeOptions_hit X v l s w Hr Hl). exact Hl'.
      + destruct (serializeJavascript X (trace w) (heap w) v SERIALIZE_OPTS)
          as [s|e] eqn:Hs.
        * rewrite (serializeOptions_miss_ok X v l s w Hr Hl Hs). cbn.
          rewrite lookup_insert_ne; [exact Hl' | congruence].
        * rewrite (serializeOptions_miss_throw X v l e w Hr Hl Hs). exact Hl'.
    - destruct (serializeOptions_primitive X v w Hu Hr) as [_ Hc].
      rewrite Hc. exact Hl'. }
  destruct v; [| apply Hgiven; [discriminate | exact Hl'] ..].
  rewrite serializeOptions_omitted. apply Hgiven; [discriminate | exact Hl'].
Qed.

(** X9. Entries are never dropped or overwritten by use: whatever the
    arguments, an entry that is in the cache before [serializeOptions] or
    [run] is there, with the same string, afterwards. *)
Theorem cache_entries_persist
    (this : WorkerPool) (filepath v : value) (l' : loc) (s' : string) (w : World) :
  optionsCache w !! l' = Some s' →
  optionsCache (serializeOptions X v w).2 !! l' = Some s' ∧
  optionsCache (run X this filepath v w).2 !! l' = Some s'.
Proof.
  intros Hl'. split; [apply serializeOptions_keeps_entries, Hl'|].
  assert (Hgiven : ∀ v w, v ≠ VUndefined → optionsCache w !! l' = Some s' →
            optionsCache (run X this filepath v w).2 !! l' = Some s').
  { clear Hl' v w. intros v w Hu Hl'.
    pose proof (serializeOptions_keeps_entries v l' s' w Hl') as Hso.
    assert (Hd : default_param v (alloc ∅) w = (Normal v, w))
      by (destruct v; [contradiction | reflexivity..]).
    remember (run X this filepath v w) as r eqn:Hr.
    unfold run, async_fn in Hr. unfold bind at 1 in Hr. rewrite Hd in Hr. clear Hd.
    unmonad.
    destruct (negb (ToBoolean filepath) || negb (String.eqb (typeof filepath) "string"));
      [subst r; exact Hl'|].
    destruct (serializeOptions X v w) as [[so|e] w1]; cbn [snd] in Hso;
      [|subst r; exact Hso].
    destruct (Pool_exec X (trace w1) (_pool this) "run" [filepath; so]);
      subst r; exact Hso. }
  destruct v; [| apply Hgiven; [discriminate | exact Hl'] ..].
  rewrite run_omitted. apply Hgiven; [discriminate | exact Hl'].
Qed.

(** X10. Two runs with the same configuration object serialize it once:
    the Serializer is invoked by the first run only, and both tasks carry
    the same string, whatever the executor makes of the first task. *)
Theorem two_runs_share_one_serialization
    (this1 this2 : WorkerPool) (f1 f2 s : string) (l : loc) (w : World) :
  f1 ≠ "" → f2 ≠ "" →
  optionsCache w !! l = None →
  serializeJavascript X (trace w) (heap w) (VObject l) SERIALIZE_OPTS = Normal s →
  serializer_calls
    (trace (run X this2 (VString f2) (VObject l)
              (run X this1 (VString f1) (VObject l) w).2).2)
    = serializer_calls (trace w) ++ [VObject l] ∧
  exec_calls
    (trace (run X this2 (VString f2) (VObject l)
              (run X this1 (VString f1) (VObject l) w).2).2)
    = exec_calls (trace w)
      ++ [(_pool this1, "run", [VString f1; VString s]);
          (_pool this2, "run", [VString f2; VString s])].
Proof.
  intros Hf1 Hf2 Hl Hs.
  pose proof (serializeOptions_miss_ok X (VObject l) l s w eq_refl Hl Hs) as Hso.
  set (r1 := run X this1 (VString f1) (VObject l) w).
  assert (Hw1 : optionsCache r1.2 !! l = Some s ∧
                serializer_calls (trace r1.2) = serializer_calls (trace w) ++ [VObject l] ∧
                exec_calls (trace r1.2)
                  = exec_calls (trace w) ++ [(_pool this1, "run", [VString f1; VString s])]).
  { unfold r1. rewrite (run_valid X this1 f1 l w Hf1), Hso. cbn zeta.
    destruct (Pool_exec X _ (_pool this1) "run" _); cbn;
      rewrite lookup_insert_eq; autorewrite with trace_db; cbn;
      rewrite ?app_nil_r; auto. }
  clearbody r1. destruct Hw1 as (Hc & Hser & Hex).
  rewrite (run_valid X this2 f2 l r1.2 Hf2).
  rewrite (serializeOptions_hit X (VObject l) l s r1.2 eq_refl Hc). cbn zeta.
  destruct (Pool_exec X _ (_pool this2) "run" _); cbn;
    autorewrite with trace_db; cbn; rewrite ?app_nil_r, Hser, Hex;
    rewrite <- ?app_assoc; auto.
Qed.

(** X11. When [serializeOptions] returns, it returns a string: the lookup
    that ends it always finds the entry. *)
Theorem serializeOptions_returns_strings (v so : value) (w w1 : World) :
  serializeOptions X v w = (Normal so, w1) → ∃ s, so = VString s.
Proof.
  assert (Hgiven : ∀ v w, v ≠ VUndefined →
            serializeOptions X v w = (Normal so, w1) → ∃ s, so = VString s).
  { clear v w. intros v w Hu Hso. destruct (reference v) as [l|] eqn:Hr.
    - destruct (optionsCache w !! l) as [s|] eqn:Hl.
      + rewrite (serializeOptions_hit X v l s w Hr Hl) in Hso. exists s. congruence.
      + destruct (serializeJavascript X (trace w) (heap w) v SERIALIZE_OPTS)
          as [s|e] eqn:Hs.
        * rewrite (serializeOptions_miss_ok X v l s w Hr Hl Hs) in Hso.
          exists s. congruence.
        * rewrite (serializeOptions_miss_throw X v l e w Hr Hl Hs) in Hso.
          discriminate.
    - exfalso. revert Hso. unfold serializeOptions. unmonad.
      destruct v; try discriminate Hr; try contradiction; cbn;
        match goal with |- context [serializeJavascript X ?tr ?hp ?a ?o] =>
          destruct (serializeJavascript X tr hp a o) end; discriminate. }
  intros Hso. destruct v; [| eapply Hgiven; [|exact Hso]; discriminate ..].
  rewrite serializeOptions_omitted in Hso.
  eapply Hgiven; [|exact Hso]. discriminate.
Qed.

End MoreOfTheCache.

Section ReachableWorlds.

Context (X : Externals) (host : Host) (m : Bindings).

(** X12. In every world reached from loading the module by creating
    objects, writing to them and calling [create], [run], [stats],
    [terminate], [serializeOptions] and [resetOptionsCache], every key of the
    options cache is an object that exists, the default options are what the
    module wrote when it was loaded, and so a construction without argument
    still resolves [maxWorkers] to [max(1, CPU_COUNT - 1)]: nothing a caller
    does changes the defaults of later pools. *)
Theorem reachable_worlds_are_well_formed (w : World) :
  reachable X host m w →
  cache_wf w ∧
  module_loaded host m w ∧
  maxWorkers_of (constructor X host m VUndefined w).2 (VObject (next_object w))
    = VNumber (of_Z (Z.max 1 (Z.of_nat (cpus_length host) - 1))).
Proof.
  intros Hreach.
  destruct (reachable_invariant X host m w Hreach) as [Hwf Hloaded].
  split; [exact Hwf|]. split; [exact Hloaded|].
  destruct Hloaded as (d & forkOpts & Hd & Hheap).
  rewrite (constructor_default X host m d w Hd).
  assert (Hn : (ToNumber X
                  (default VUndefined (DEFAULT_OPTS_literal host forkOpts !! "maxWorkers"))
                  w).1 = Normal (DEFAULT_MAX_WORKERS host))
    by (rewrite DEFAULT_OPTS_maxWorkers; reflexivity).
  pose proof (constructor_maxWorkers X host m d _ _ w Hheap Hn) as Hmw.
  unfold DEFAULT_MAX_WORKERS in Hmw. rewrite max2_one_of_Z in Hmw.
  exact Hmw.
Qed.

End ReachableWorlds.

(** ** Facts about numbers, equality and sorting *)


Lemma number_sub_negative (a b : number) :
  number_lt (number_sub a b) (of_Z 0) = number_lt a b.
Proof.
  destruct a as [| | |x], b as [| | |y]; try reflexivity.
  unfold number_sub, of_Z, number_lt. f_equal.
  destruct (Qle_bool y x) eqn:Hyx.
  - apply Qle_bool_iff. apply Qle_bool_iff in Hyx.
    unfold Qminus. rewrite <- Qle_minus_iff. exact Hyx.
  - destruct (Qle_bool (inject_Z 0) (Qminus x y)) eqn:H0; [|reflexivity].
    apply Qle_bool_iff in H0. unfold Qminus in H0.
    rewrite <- Qle_minus_iff in H0. apply Qle_bool_iff in H0. congruence.
Qed.

Lemma number_lt_asym (a b : number) :
  number_lt a b = true → number_lt b a = false.
Proof.
  destruct a as [| | |x], b as [| | |y]; cbn; try done.
  intros H. apply negb_true_iff in H. apply negb_false_iff.
  apply Qle_bool_iff.
  destruct (Qlt_le_dec y x) as [Hlt|Hle].
  - apply Qlt_le_weak in Hlt. apply Qle_bool_iff in Hlt. congruence.
  - exact Hle.
Qed.

(** "Not below" is transitive through a number that is not NaN. *)
Lemma number_not_lt_trans (a b c : number) :
  isNaN b = false →
  number_lt a b = false → number_lt b c = false → number_lt a c = false.
Proof.
  destruct a as [| | |x], b as [| | |y], c as [| | |z]; cbn; try done.
  intros _ Hab Hbc. apply negb_false_iff in Hab, Hbc. apply negb_false_iff.
  apply Qle_bool_iff in Hab, Hbc. apply Qle_bool_iff.
  eapply Qle_trans; eassumption.
Qed.

Lemma number_eq_refl (a : number) : isNaN a = false → number_eq a a = true.
Proof. destruct a; cbn; try done. intros _. apply Qeq_bool_iff. reflexivity. Qed.

Lemma number_eq_sym (a b : number) : number_eq a b = number_eq b a.
Proof.
  destruct a as [| | |x], b as [| | |y]; cbn; try done.
  apply eq_true_iff_eq. rewrite !Qeq_bool_iff. split; intros H; symmetry; exact H.
Qed.

Lemma number_eq_trans (a b c : number) :
  number_eq a b = true → number_eq b c = true → number_eq a c = true.
Proof.
  destruct a as [| | |x], b as [| | |y], c as [| | |z]; cbn; try done.
  rewrite !Qeq_bool_iff. intros H1 H2. etrans; eassumption.
Qed.


Lemma SameValueZero_numbers (x y : number) :
  SameValueZero (VNumber x) (VNumber y) = (isNaN x && isNaN y) || number_eq x y.
Proof. destruct x, y; reflexivity. Qed.

Lemma SameValueZero_number_l (x : number) (b : value) :
  SameValueZero (VNumber x) b = true → ∃ y, b = VNumber y.
Proof. destruct b; try (destruct x; discriminate). eauto. Qed.

Lemma SameValueZero_sym (a b : value) : SameValueZero a b = SameValueZero b a.
Proof.
  destruct a as [| |x|x|x|x|x|x|x], b as [| |y|y|y|y|y|y|y];
    try reflexivity;
    try (destruct x; reflexivity); try (destruct y; reflexivity);
    try (rewrite !SameValueZero_numbers, (number_eq_sym x y),
           (andb_comm (isNaN x)); reflexivity);
    cbn;
    first [ apply Z.eqb_sym | apply String.eqb_sym | apply Pos.eqb_sym
          | destruct x, y; reflexivity ].
Qed.

Lemma SameValueZero_trans (a b c : value) :
  SameValueZero a b = true → SameValueZero b c = true → SameValueZero a c = true.
Proof.
  destruct a as [| |x|x|x|x|x|x|x].
  all: try (destruct b as [| |y|y|y|y|y|y|y]; try discriminate;
            destruct c as [| |z|z|z|z|z|z|z]; try discriminate;
            try (destruct y; discriminate); cbn;
            rewrite ?Z.eqb_eq, ?String.eqb_eq, ?Pos.eqb_eq; try congruence;
            destruct x, y, z; done).
  intros Hab Hbc.
  destruct (SameValueZero_number_l x b Hab) as [y ->].
  destruct (SameValueZero_number_l y c Hbc) as [z ->].
  rewrite SameValueZero_numbers in *.
  destruct x as [| | |p], y as [| | |q]; try discriminate;
    destruct z as [| | |r]; try discriminate; try reflexivity.
  cbn in *. apply (number_eq_trans (Finite p) (Finite q) (Finite r)); assumption.
Qed.

Section Sorting.

Context {A : Type} (compareFn : A → A → number).

Lemma sort_insert_Permutation (x : A) (sorted : list A) :
  sort_insert compareFn x sorted ≡ₚ x :: sorted.
Proof.
  induction sorted as [|y rest IH]; [reflexivity|]. cbn.
  destruct (number_lt (compareFn y x) (of_Z 0)); [|reflexivity].
  rewrite IH. apply Permutation_swap.
Qed.

Lemma Array_sort_Permutation (array : list A) :
  Array_sort compareFn array ≡ₚ array.
Proof.
  induction array as [|x rest IH]; [reflexivity|].
  cbn. rewrite sort_insert_Permutation. by f_equiv.
Qed.

(** Where an inserted element lands. *)
Lemma sort_insert_split (x : A) (sorted : list A) :
  ∃ before after,
    sorted = before ++ after ∧
    sort_insert compareFn x sorted = before ++ x :: after ∧
    Forall (λ y, number_lt (compareFn y x) (of_Z 0) = true) before ∧
    (∀ y rest, after = y :: rest → number_lt (compareFn y x) (of_Z 0) = false).
Proof.
  induction sorted as [|y rest IH].
  - exists [], []. repeat split; [constructor | intros; discriminate].
  - cbn. destruct (number_lt (compareFn y x) (of_Z 0)) eqn:Hy.
    + destruct IH as (before & after & -> & -> & Hb & Ha).
      exists (y :: before), after. repeat split; [|exact Ha].
      constructor; assumption.
    + exists [], (y :: rest). repeat split; [constructor|].
      intros y' rest' [= <- <-]. exact Hy.
Qed.

End Sorting.

(** ** The supporters script *)

Module SupportersFacts.

Import Supporters.

Local Open Scope nat_scope.

Lemma posted_app (l1 l2 : list step) : posted (l1 ++ l2) = posted l1 ++ posted l2.
Proof. apply omap_app. Qed.

Section Pagination.

Context (needle : Variables → Completion (list Order)).

Lemma page_request_next (slug : value) (i : nat) :
  {| limit := limit (page_request slug i);
     offset := (offset (page_request slug i) + graphqlPageSize)%nat;
     account_slug := account_slug (page_request slug i) |}
  = page_request slug (S i).
Proof. unfold page_request. cbn [limit offset account_slug]. f_equal. lia. Qed.

Lemma getAllOrders_start (fuel : nat) (slug_arg : value) :
  getAllOrders needle fuel slug_arg
    = getAllOrders_loop needle fuel [] (page_request (requested_slug slug_arg) 0) [].
Proof. reflexivity. Qed.

(** The loop goes through full pages. *)
Lemma getAllOrders_loop_full_pages
    (pages : nat → list Order) (slug : value) (k : nat) :
  ∀ (fuel i : nat) (allOrders : list Order) (log : list step),
    (∀ j, (j < k)%nat →
       needle (page_request slug (i + j)) = Normal (pages (i + j)) ∧
       (graphqlPageSize ≤ length (pages (i + j)))%nat) →
    ∃ log',
      getAllOrders_loop needle (k + fuel) allOrders (page_request slug i) log
        = getAllOrders_loop needle fuel
            (allOrders ++ concat (pages <$> seq i k)) (page_request slug (i + k)) log' ∧
      posted log' = posted log ++ (page_request slug <$> seq i k).
Proof.
  induction k as [|k IH]; intros fuel i allOrders log Hfull.
  - exists log. cbn. rewrite !app_nil_r, Nat.add_0_r. auto.
  - destruct (Hfull 0%nat ltac:(lia)) as [Hpage Hlen]. rewrite Nat.add_0_r in Hpage, Hlen.
    cbn [Nat.add getAllOrders_loop]. rewrite Hpage.
    assert (Hnot : Nat.ltb (length (pages i)) graphqlPageSize = false)
      by (apply Nat.ltb_ge; exact Hlen).
    rewrite Hnot, page_request_next.
    edestruct (IH fuel (S i) (allOrders ++ pages i)) as (log' & Heq & Hposted).
    { intros j Hj. replace (S i + j)%nat with (i + S j)%nat by lia.
      apply Hfull. lia. }
    exists log'. rewrite Heq. split.
    + cbn [seq fmap list_fmap concat]. rewrite <- app_assoc.
      replace (S i + k)%nat with (i + S k)%nat by lia. reflexivity.
    + rewrite Hposted, !posted_app. cbn. rewrite app_nil_r, <- app_assoc. reflexivity.
Qed.

(** X13. [getAllOrders] returns the pages up to and including the first one
    that is shorter than the page size, one after the other; it has then
    made exactly one request per page, for the offsets 0, 1000, 2000 ... *)
Theorem getAllOrders_collects_pages
    (pages : nat → list Order) (slug_arg : value) (k fuel : nat) :
  (∀ j, (j < k)%nat →
     needle (page_request (requested_slug slug_arg) j) = Normal (pages j) ∧
     (graphqlPageSize ≤ length (pages j))%nat) →
  needle (page_request (requested_slug slug_arg) k) = Normal (pages k) →
  (length (pages k) < graphqlPageSize)%nat →
  (k < fuel)%nat →
  ∃ log,
    getAllOrders needle fuel slug_arg
      = Some (Normal (concat (pages <$> seq 0 (S k))), log) ∧
    posted log = page_request (requested_slug slug_arg) <$> seq 0 (S k).
Proof.
  intros Hfull Hlast Hshort Hfuel.
  destruct (getAllOrders_loop_full_pages pages (requested_slug slug_arg) k
              (fuel - k) 0 [] []) as (log' & Heq & Hposted).
  { intros j Hj. cbn. apply Hfull, Hj. }
  rewrite getAllOrders_start.
  replace (k + (fuel - k)) with fuel in Heq by lia. rewrite Heq.
  destruct (fuel - k)%nat as [|fuel'] eqn:Hf; [lia|].
  cbn [Nat.add getAllOrders_loop]. rewrite Hlast.
  assert (Hlt : Nat.ltb (length (pages k)) graphqlPageSize = true)
    by (apply Nat.ltb_lt; exact Hshort).
  rewrite Hlt. eexists. split.
  - rewrite seq_S, fmap_app, concat_app. cbn. rewrite app_nil_r. reflexivity.
  - rewrite seq_S, fmap_app, !posted_app, Hposted. cbn. rewrite app_nil_r.
    reflexivity.
Qed.


(** X15. The loop has no other exit: against a server that answers every
    request with a full page, [getAllOrders] is still running however many
    iterations it is given. *)
Theorem getAllOrders_needs_a_short_page (slug_arg : value) (fuel : nat) :
  (∀ variables, ∃ orders,
     needle variables = Normal orders ∧ (graphqlPageSize ≤ length orders)%nat) →
  getAllOrders needle fuel slug_arg = None.
Proof.
  intros Hfull. unfold getAllOrders.
  generalize (@nil Order) as allOrders. generalize (@nil step) as log.
  generalize {| limit := graphqlPageSize; offset := 0%nat;
                account_slug := match slug_arg with
                                | VUndefined => VString "mochajs"
                                | _ => slug_arg
                                end |} as variables.
  induction fuel as [|fuel IH]; intros variables log allOrders; [reflexivity|].
  cbn [getAllOrders_loop].
  destruct (Hfull variables) as (orders & -> & Hlen).
  assert (Hnot : Nat.ltb (length orders) graphqlPageSize = false)
    by (apply Nat.ltb_ge; exact Hlen).
  rewrite Hnot. apply IH.
Qed.

(** X16. Against a server that holds the orders [all] and serves the page
    it is asked for, [getAllOrders] returns exactly [all], after
    [length all / 1000 + 1] requests. *)
Theorem getAllOrders_returns_every_order
    (all : list Order) (slug_arg : value) (fuel : nat) :
  (∀ variables,
     needle variables
       = Normal (take (limit variables) (drop (offset variables) all))) →
  (length all / graphqlPageSize < fuel)%nat →
  ∃ log,
    getAllOrders needle fuel slug_arg = Some (Normal all, log) ∧
    length (posted log) = S (length all / graphqlPageSize).
Proof.
  intros Hserver Hfuel.
  set (pages := λ j : nat, take graphqlPageSize (drop (j * graphqlPageSize) all)).
  set (k := (length all / graphqlPageSize)%nat).
  assert (Hpage : ∀ j, needle (page_request (requested_slug slug_arg) j)
                       = Normal (pages j)) by (intros j; apply Hserver).
  assert (Hsize : graphqlPageSize = 1000%nat) by reflexivity.
  assert (Hdiv : (k * graphqlPageSize ≤ length all < (k + 1) * graphqlPageSize)%nat).
  { unfold k. rewrite Hsize.
    pose proof (Nat.div_mod_eq (length all) 1000).
    pose proof (Nat.mod_upper_bound (length all) 1000 ltac:(lia)). lia. }
  assert (Hcat : ∀ n, concat (pages <$> seq 0 n) = take (n * graphqlPageSize) all).
  { induction n as [|n IHn]; [reflexivity|].
    rewrite seq_S, fmap_app, concat_app, IHn.
    change (concat (pages <$> [0 + n])) with (pages n ++ []).
    rewrite app_nil_r. unfold pages. rewrite take_take_drop.
    f_equal. lia. }
  destruct (getAllOrders_loop_full_pages pages (requested_slug slug_arg) k
              (fuel - k) 0 [] []) as (log' & Heq & Hposted).
  { intros j Hj. cbn. split; [apply Hpage|].
    unfold pages. rewrite length_take, length_drop.
    assert ((j + 1) * graphqlPageSize ≤ k * graphqlPageSize)%nat
      by (apply Nat.mul_le_mono_r; lia).
    lia. }
  rewrite getAllOrders_start.
  replace (k + (fuel - k)) with fuel in Heq by lia. rewrite Heq.
  destruct (fuel - k)%nat as [|fuel'] eqn:Hf; [lia|].
  cbn [Nat.add getAllOrders_loop]. rewrite Hpage.
  assert (Hlt : Nat.ltb (length (pages k)) graphqlPageSize = true).
  { apply Nat.ltb_lt. unfold pages. rewrite length_take, length_drop. lia. }
  assert (Hall : ([] ++ concat (pages <$> seq 0 k)) ++ pages k = all).
  { cbn [app]. rewrite Hcat. unfold pages. rewrite take_take_drop.
    apply take_ge. lia. }
  rewrite Hlt, Hall. eexists. split; [reflexivity|].
  rewrite !posted_app, Hposted. cbn.
  rewrite !length_app, length_fmap, length_seq. cbn. lia.
Qed.

End Pagination.

Section Arrangement.

Context (number_mul : number → number → number).

Local Abbreviation compareFn :=
  (λ a b : Supporter, number_sub (totalDonations b) (totalDonations a)).

Lemma same_account_sym (a b : Supporter) : same_account a b → same_account b a.
Proof. unfold same_account. rewrite SameValueZero_sym. auto. Qed.

Lemma Set_has_app (seen : list value) (v x : value) :
  Set_has (seen ++ [v]) x = Set_has seen x || SameValueZero x v.
Proof. unfold Set_has. rewrite existsb_app. cbn. rewrite orb_false_r. reflexivity. Qed.

(** A set that has a value has every value equal to it. *)
Lemma Set_has_same (seen : list value) (x y : value) :
  SameValueZero x y = true → Set_has seen x = true → Set_has seen y = true.
Proof.
  unfold Set_has. intros Hxy Hx. apply existsb_exists in Hx as (u & Hu & Hxu).
  apply existsb_exists. exists u. split; [exact Hu|].
  apply (SameValueZero_trans y x u); [|exact Hxu].
  rewrite SameValueZero_sym. exact Hxy.
Qed.

Lemma foldl_keep_unseen (l : list Supporter) :
  ∀ seen acc,
    (foldl keep_unseen (seen, acc) l).2 = acc ++ unseen_first seen l.
Proof.
  induction l as [|s rest IH]; intros seen acc; cbn [foldl unseen_first].
  - rewrite app_nil_r. reflexivity.
  - unfold keep_unseen at 2. unfold Set_add.
    destruct (Set_has seen (slug s)); cbn [negb].
    + apply IH.
    + rewrite IH, <- app_assoc. reflexivity.
Qed.

Lemma unseen_first_sublist (l : list Supporter) :
  ∀ seen, unseen_first seen l `sublist_of` l.
Proof.
  induction l as [|s rest IH]; intros seen; cbn; [constructor|].
  destruct (Set_has seen (slug s)).
  - apply sublist_cons, IH.
  - apply sublist_skip, IH.
Qed.

Lemma unseen_first_unseen (l : list Supporter) :
  ∀ seen, Forall (λ s, Set_has seen (slug s) = false) (unseen_first seen l).
Proof.
  induction l as [|s rest IH]; intros seen; cbn; [constructor|].
  destruct (Set_has seen (slug s)) eqn:Hs; [apply IH|].
  constructor; [exact Hs|].
  eapply Forall_impl; [apply IH|]. cbn. intros t Ht.
  rewrite Set_has_app in Ht. apply orb_false_iff in Ht. apply Ht.
Qed.

Lemma unseen_first_one_per_account (l : list Supporter) :
  ∀ seen, one_per_account (unseen_first seen l).
Proof.
  induction l as [|s rest IH]; intros seen; cbn; [constructor|].
  destruct (Set_has seen (slug s)); [apply IH|].
  constructor; [|apply IH].
  eapply Forall_impl; [apply unseen_first_unseen|]. cbn. intros t Ht Hsame.
  rewrite Set_has_app in Ht. apply orb_false_iff in Ht as [_ Ht].
  apply same_account_sym in Hsame. unfold same_account in Hsame. congruence.
Qed.

(** A kept supporter is the first of its account. *)
Lemma unseen_first_is_first (l : list Supporter) :
  ∀ seen s, s ∈ unseen_first seen l →
    Set_has seen (slug s) = false ∧
    ∃ a b, l = a ++ s :: b ∧ Forall (λ t, ¬ same_account t s) a.
Proof.
  induction l as [|h rest IH]; intros seen s Hs; cbn in Hs; [by inv Hs|].
  destruct (Set_has seen (slug h)) eqn:Hh.
  - destruct (IH seen s Hs) as (Hseen & a & b & -> & Ha). split; [exact Hseen|].
    exists (h :: a), b. split; [reflexivity|]. constructor; [|exact Ha].
    intros Hsame. pose proof (Set_has_same seen _ _ Hsame Hh). congruence.
  - apply elem_of_cons in Hs as [->|Hs].
    + split; [exact Hh|]. exists [], rest. split; [reflexivity | constructor].
    + destruct (IH _ s Hs) as (Hseen & a & b & -> & Ha).
      rewrite Set_has_app in Hseen. apply orb_false_iff in Hseen as [Hseen Hsh].
      split; [exact Hseen|].
      exists (h :: a), b. split; [reflexivity|]. constructor; [|exact Ha].
      intros Hsame. apply same_account_sym in Hsame.
      unfold same_account in Hsame. congruence.
Qed.


Lemma one_per_account_Permutation (l1 l2 : list Supporter) :
  l1 ≡ₚ l2 → one_per_account l1 → one_per_account l2.
Proof.
  induction 1 as [|x l1 l2 Hperm IH|x y l|l1 l2 l3 _ IH1 _ IH2]; intros Hone.
  - exact Hone.
  - inv Hone. constructor; [|auto]. by rewrite <- Hperm.
  - inv Hone. match goal with H : one_per_account (_ :: _) |- _ => inv H end.
    match goal with H : Forall _ (x :: l) |- _ => inv H end.
    constructor; [|constructor; assumption].
    constructor; [|assumption].
    intros Hsame. apply same_account_sym in Hsame. contradiction.
  - auto.
Qed.

Lemma one_per_account_sublist (l1 l2 : list Supporter) :
  l1 `sublist_of` l2 → one_per_account l2 → one_per_account l1.
Proof.
  induction 1 as [|x l1 l2 Hsub IH|x l1 l2 Hsub IH]; intros Hone.
  - constructor.
  - inv Hone. constructor; [|auto].
    apply Forall_forall. intros t Ht.
    match goal with H : Forall _ l2 |- _ =>
      apply (proj1 (Forall_forall _ _) H) end.
    eapply elem_of_sublist; eassumption.
  - inv Hone. auto.
Qed.


(** The totals of the supporters are numbers other than NaN. *)
Local Abbreviation totals_known l :=
  (Forall (λ s : Supporter, isNaN (totalDonations s) = false) l).

Lemma totals_known_sort (l : list Supporter) :
  totals_known l → totals_known (Array_sort compareFn l).
Proof. intros H. by rewrite Array_sort_Permutation. Qed.

(** What stands after an inserted element does not have more than it. *)
Lemma sort_insert_after (x : Supporter) (sorted before after : list Supporter) :
  totals_known sorted →
  StronglySorted not_less sorted →
  sorted = before ++ after →
  (∀ y rest, after = y :: rest → number_lt (compareFn y x) (of_Z 0) = false) →
  Forall (not_less x) after.
Proof.
  intros Hknown Hsorted -> Hhead.
  destruct after as [|y rest]; [constructor|].
  specialize (Hhead y rest eq_refl). rewrite number_sub_negative in Hhead.
  apply StronglySorted_app in Hsorted as (_ & _ & Hafter).
  apply StronglySorted_cons in Hafter as [Hy _].
  apply Forall_app in Hknown as [_ Hknown]. apply Forall_cons in Hknown as [Hnan _].
  constructor; [exact Hhead|].
  eapply Forall_impl; [exact Hy|]. cbn. intros z Hyz.
  exact (number_not_lt_trans _ _ _ Hnan Hhead Hyz).
Qed.

Lemma Array_sort_sorted (l : list Supporter) :
  totals_known l → StronglySorted not_less (Array_sort compareFn l).
Proof.
  induction l as [|x rest IH]; intros Hknown; [constructor|].
  apply Forall_cons in Hknown as [Hx Hknown]. specialize (IH Hknown).
  cbn [Array_sort foldr]. fold (Array_sort compareFn rest).
  destruct (sort_insert_split compareFn x (Array_sort compareFn rest))
    as (before & after & Hsplit & -> & Hbefore & Hhead).
  pose proof (sort_insert_after x _ before after
                (totals_known_sort rest Hknown) IH Hsplit Hhead) as Hafter.
  rewrite Hsplit in IH. apply StronglySorted_app in IH as (Hcross & Hsb & Hsa).
  apply StronglySorted_app. split; [|split; [exact Hsb|]].
  - intros b a Hb Ha. apply elem_of_cons in Ha as [->|Ha]; [|auto].
    apply (proj1 (Forall_forall _ _) Hbefore) in Hb.
    rewrite number_sub_negative in Hb. apply number_lt_asym, Hb.
  - apply StronglySorted_cons. auto.
Qed.

(** In the sorted array, the first supporter of an account is the first of
    its largest ones in the array as it was. *)
Lemma sorted_first_is_first_largest (l : list Supporter) :
  totals_known l →
  ∀ s a b,
    Array_sort compareFn l = a ++ s :: b →
    Forall (λ t, ¬ same_account t s) a →
    first_largest_of_account l s.
Proof.
  induction l as [|x rest IH]; intros Hknown s a b Heq Ha.
  { destruct a; discriminate. }
  apply Forall_cons in Hknown as [Hx Hknown]. specialize (IH Hknown).
  cbn [Array_sort foldr] in Heq. fold (Array_sort compareFn rest) in Heq.
  destruct (sort_insert_split compareFn x (Array_sort compareFn rest))
    as (before & after & Hsplit & Hins & Hbefore & Hhead).
  pose proof (sort_insert_after x _ before after (totals_known_sort rest Hknown)
                (Array_sort_sorted rest Hknown) Hsplit Hhead) as Hafter.
  rewrite Hins in Heq.
  assert (Hcase :
    (∃ k, before = a ++ s :: k) ∨ (a = before ∧ s = x ∧ b = after) ∨
    (∃ k, a = before ++ x :: k ∧ after = k ++ s :: b)).
  { apply app_eq_inv in Heq as [(k & Hb & Hk)|(k & Hk & Hb)].
    - destruct k as [|s' k].
      + right; left. rewrite app_nil_r in Hb. cbn in Hk.
        injection Hk as -> ->. auto.
      + left. injection Hk as -> _. eauto.
    - destruct k as [|x' k].
      + right; left. rewrite app_nil_r in Hk. cbn in Hb.
        injection Hb as -> ->. auto.
      + right; right. injection Hb as -> ->. eauto. }
  destruct Hcase as [(k & ->)|[(-> & -> & ->)|(k & -> & ->)]].
  - destruct (IH s a (k ++ after)) as (l1 & l2 & -> & H1 & H2).
    { rewrite Hsplit, <- app_assoc. reflexivity. }
    { exact Ha. }
    exists (x :: l1), l2. split; [reflexivity|]. split; [|exact H2].
    constructor; [|exact H1]. intros _.
    apply Forall_app in Hbefore as [_ Hs]. apply Forall_cons in Hs as [Hs _].
    rewrite number_sub_negative in Hs. exact Hs.
  - exists [], rest. split; [reflexivity|]. split; [constructor|].
    apply Forall_forall. intros t Ht Hsame.
    assert (Hin : t ∈ before ++ after)
      by (rewrite <- Hsplit, Array_sort_Permutation; exact Ht).
    apply elem_of_app in Hin as [Hin|Hin].
    + exfalso. exact (proj1 (Forall_forall _ _) Ha t Hin Hsame).
    + exact (proj1 (Forall_forall _ _) Hafter t Hin).
  - apply Forall_app in Ha as [Hab Hak]. apply Forall_cons in Hak as [Hax Hak].
    destruct (IH s (before ++ k) b) as (l1 & l2 & -> & H1 & H2).
    { rewrite Hsplit, <- app_assoc. reflexivity. }
    { apply Forall_app. auto. }
    exists (x :: l1), l2. split; [reflexivity|]. split; [|exact H2].
    constructor; [|exact H1]. intros Hsame. contradiction.
Qed.

(** The supporters the script keeps, one per account. *)
Local Abbreviation kept orders :=
  (unseen_first []
     (Array_sort compareFn (map (nodeToSupporter number_mul) orders))).

Lemma check_items_pass (items : list Supporter) : check_items items = inr tt.
Proof. induction items as [|item items IH]; [reflexivity|]. cbn. exact IH. Qed.

(** [with_orders] unfolded: none of its checks fires. *)
Lemma with_orders_result (orders : list Order) :
  with_orders number_mul orders =
    (inr {| backers :=
              filter (λ s, StrictEquals (tier s) (VString "backers") = true)
                     (kept orders);
            sponsors :=
              filter (λ s, StrictEquals (tier s) (VString "sponsors") = true)
                     (kept orders) |},
     [Logged "found %d backers and %d sponsors"
        [length (filter (λ s, StrictEquals (tier s) (VString "backers") = true)
                        (kept orders));
         length (filter (λ s, StrictEquals (tier s) (VString "sponsors") = true)
                        (kept orders))]]).
Proof.
  unfold with_orders. rewrite foldl_keep_unseen. cbn [app Array_isArray negb].
  rewrite check_items_pass. reflexivity.
Qed.

Lemma StrictEquals_string (v : value) (s : string) :
  StrictEquals v (VString s) = true → v = VString s.
Proof. destruct v; try discriminate. cbn. intros H. apply String.eqb_eq in H. congruence. Qed.

Lemma kept_from_orders (orders : list Order) (s : Supporter) :
  s ∈ kept orders → ∃ o, o ∈ orders ∧ s = nodeToSupporter number_mul o.
Proof.
  intros Hs. eapply elem_of_sublist in Hs; [|apply unseen_first_sublist].
  rewrite Array_sort_Permutation in Hs.
  apply list_elem_of_fmap in Hs as (o & -> & Ho). eauto.
Qed.

(** The totals that the orders get are numbers other than NaN. *)
Local Abbreviation amounts_known orders :=
  (Forall (λ o : Order,
             isNaN (number_mul (totalDonations_value o) (of_Z 100)) = false)
          orders).

Lemma amounts_known_totals (orders : list Order) :
  amounts_known orders → totals_known (map (nodeToSupporter number_mul) orders).
Proof. intros H. apply Forall_fmap. exact H. Qed.

Lemma kept_first_largest (orders : list Order) (s : Supporter) :
  amounts_known orders →
  s ∈ kept orders →
  first_largest_of_account (map (nodeToSupporter number_mul) orders) s.
Proof.
  intros Hknown Hs.
  destruct (unseen_first_is_first _ _ _ Hs) as (_ & a & b & Heq & Ha).
  exact (sorted_first_is_first_largest _ (amounts_known_totals _ Hknown) s a b Heq Ha).
Qed.


(** X18. Every backer of the result is the supporter made from an order
    whose tier is [backers]; every sponsor is the supporter made from an
    order whose tier is [sponsors] or that has no tier. *)
Theorem buckets_follow_the_tier (orders : list Order) :
  ∃ b,
    (with_orders number_mul orders).1 = inr b ∧
    (∀ s, s ∈ backers b →
       ∃ o, o ∈ orders ∧ s = nodeToSupporter number_mul o ∧
            node_tier o = Some (VString "backers")) ∧
    (∀ s, s ∈ sponsors b →
       ∃ o, o ∈ orders ∧ s = nodeToSupporter number_mul o ∧
            (node_tier o = None ∨ node_tier o = Some (VString "sponsors"))).
Proof.
  rewrite with_orders_result. eexists. split; [reflexivity|]. cbn [backers sponsors].
  split; intros s Hs; apply list_elem_of_filter in Hs as [Htier Hs];
    apply StrictEquals_string in Htier;
    destruct (kept_from_orders orders s Hs) as (o & Ho & ->);
    exists o; (split; [exact Ho|]); (split; [reflexivity|]);
    cbn in Htier; destruct (node_tier o); [congruence | discriminate | auto | auto].
  right. congruence.
Qed.

(** X19. The result holds at most one supporter per account, over both
    buckets together. *)
Theorem result_has_one_supporter_per_account (orders : list Order) :
  ∃ b,
    (with_orders number_mul orders).1 = inr b ∧
    one_per_account (backers b ++ sponsors b).
Proof.
  rewrite with_orders_result. eexists. split; [reflexivity|]. cbn [backers sponsors].
  pose proof (unseen_first_one_per_account
                (Array_sort compareFn (map (nodeToSupporter number_mul) orders)) [])
    as Hone.
  induction Hone as [|s rest Hs Hone IH]; [constructor|].
  rewrite !filter_cons.
  destruct (decide (StrictEquals (tier s) (VString "backers") = true)) as [Hb|Hb].
  - assert (Hnot : StrictEquals (tier s) (VString "sponsors") ≠ true).
    { apply StrictEquals_string in Hb. rewrite Hb. cbn. discriminate. }
    rewrite decide_False by exact Hnot. cbn. constructor; [|exact IH].
    apply Forall_app. split; apply Forall_forall; intros t Ht;
      apply list_elem_of_filter in Ht as [_ Ht];
      exact (proj1 (Forall_forall _ _) Hs t Ht).
  - destruct (decide (StrictEquals (tier s) (VString "sponsors") = true)); [|exact IH].
    eapply one_per_account_Permutation; [apply Permutation_middle|].
    constructor; [|exact IH].
    apply Forall_app. split; apply Forall_forall; intros t Ht;
      apply list_elem_of_filter in Ht as [_ Ht];
      exact (proj1 (Forall_forall _ _) Hs t Ht).
Qed.


(** X21. When no total is NaN, the supporter that the result holds for an
    account is made from the first of the largest orders of that account,
    in the order in which the orders arrived. *)
Theorem result_keeps_first_largest_order (orders : list Order) :
  amounts_known orders →
  ∃ b,
    (with_orders number_mul orders).1 = inr b ∧
    ∀ s, s ∈ backers b ++ sponsors b →
      first_largest_of_account (map (nodeToSupporter number_mul) orders) s.
Proof.
  intros Hknown.
  rewrite with_orders_result. eexists. split; [reflexivity|]. cbn [backers sponsors].
  intros s Hs. apply (kept_first_largest orders s Hknown).
  apply elem_of_app in Hs as [Hs|Hs]; apply list_elem_of_filter in Hs; apply Hs.
Qed.


End Arrangement.

End SupportersFacts.
(** ** The properties on the inputs of the test suite *)

Module Witnesses.

Import Doubles.

(** The worlds of the examples are worlds a program reaches. *)
Example world1_reachable : reachable stubs host8 bindings0 world1.
Proof.
  apply (reachable_perform stubs host8 bindings0
           (ANewObject {[ "foo" := VString "bar" ]}) world0); [|exact I].
  apply (reachable_load stubs host8 bindings0 empty_world). reflexivity.
Qed.

Lemma run_rejects_invalid_filepath_witness :
  (not_a_string = VUndefined ∨ not_a_string = VString "" ∨
   typeof not_a_string ≠ "string") ∧
  (run stubs some_pool not_a_string VUndefined world1).1
    = Rejected (MochaError "ERR_MOCHA_INVALID_ARG_TYPE"
                  "Expected a non-empty filepath" "filepath" "string") ∧
  exec_calls (trace (run stubs some_pool not_a_string VUndefined world1).2)
    = exec_calls (trace world1) ∧
  trace (run stubs some_pool not_a_string VUndefined world1).2 = trace world1 ∧
  optionsCache (run stubs some_pool not_a_string VUndefined world1).2
    = optionsCache world1.
Proof.
  assert (H : not_a_string = VUndefined ∨ not_a_string = VString "" ∨
              typeof not_a_string ≠ "string")
    by (right; right; vm_compute; discriminate).
  split; [exact H|].
  exact (run_rejects_invalid_filepath stubs some_pool not_a_string VUndefined world1 H).
Defined.

Lemma serializeOptions_same_reference_twice_witness :
  optionsCache world1 !! 3%positive = None ∧
  serializeJavascript stubs (trace world1) (heap world1) foo_bar SERIALIZE_OPTS
    = Normal foo_bar_json ∧
  (serializeOptions stubs foo_bar world1).1 = Normal (VString foo_bar_json) ∧
  (serializeOptions stubs foo_bar (serializeOptions stubs foo_bar world1).2).1
    = Normal (VString foo_bar_json) ∧
  serializer_calls
    (trace (serializeOptions stubs foo_bar (serializeOptions stubs foo_bar world1).2).2)
    = serializer_calls (trace world1) ++ [foo_bar].
Proof.
  assert (H1 : optionsCache world1 !! 3%positive = None) by (vm_compute; reflexivity).
  assert (H2 : serializeJavascript stubs (trace world1) (heap world1) foo_bar
                 SERIALIZE_OPTS = Normal foo_bar_json) by (vm_compute; reflexivity).
  split; [exact H1|]. split; [exact H2|].
  exact (serializeOptions_same_reference_twice stubs 3%positive foo_bar_json world1 H1 H2).
Defined.

Lemma run_submits_one_task_witness :
  "file.js" ≠ "" ∧
  serializeOptions stubs foo_bar world1
    = (Normal (VString foo_bar_json), (serializeOptions stubs foo_bar world1).2) ∧
  exec_calls (trace (run stubs some_pool (VString "file.js") foo_bar world1).2)
    = [(pool_ref, "run", [VString "file.js"; VString foo_bar_json])] ∧
  (run stubs some_pool (VString "file.js") foo_bar world1).1 = Fulfilled VUndefined ∧
  deserialize_calls (trace (run stubs some_pool (VString "file.js") foo_bar world1).2)
    = [result_ref].
Proof.
  assert (H1 : "file.js" ≠ "") by discriminate.
  assert (H2 : serializeOptions stubs foo_bar world1
               = (Normal (VString foo_bar_json),
                  (serializeOptions stubs foo_bar world1).2))
    by (vm_compute; reflexivity).
  split; [exact H1|]. split; [exact H2|].
  destruct (run_submits_one_task stubs some_pool "file.js" 3%positive
              (VString foo_bar_json) world1 _ H1 H2) as [Hexec Hrest].
  change (Pool_exec stubs _ _ _ _) with (Fulfilled (A:=value) result_ref) in Hrest.
  destruct Hrest as [Hres Hdes].
  split; [exact Hexec|]. split; [exact Hres|]. exact Hdes.
Defined.

Lemma serializer_failure_is_not_cached_witness :
  "file.js" ≠ "" ∧
  optionsCache world1 !! 3%positive = None ∧
  serializeJavascript failing_serializer (trace world1) (heap world1) foo_bar
    SERIALIZE_OPTS = Throw cannot_serialize ∧
  run failing_serializer some_pool (VString "file.js") foo_bar world1
    = (Rejected cannot_serialize, emit (EvSerialize foo_bar SERIALIZE_OPTS) world1) ∧
  serializer_calls
    (trace (serializeOptions failing_serializer foo_bar
              (emit (EvSerialize foo_bar SERIALIZE_OPTS) world1)).2)
    = serializer_calls (trace world1) ++ [foo_bar; foo_bar].
Proof.
  assert (H1 : "file.js" ≠ "") by discriminate.
  assert (H2 : optionsCache world1 !! 3%positive = None) by (vm_compute; reflexivity).
  assert (H3 : serializeJavascript failing_serializer (trace world1) (heap world1)
                 foo_bar SERIALIZE_OPTS = Throw cannot_serialize) by reflexivity.
  split; [exact H1|]. split; [exact H2|]. split; [exact H3|].
  destruct (serializer_failure_is_not_cached failing_serializer some_pool "file.js"
              3%positive cannot_serialize world1 H1 H2 H3)
    as (_ & Hrun & _ & _ & Hagain).
  split; [exact Hrun | exact Hagain].
Defined.

Lemma omitted_configuration_never_hits_cache_witness :
  "file.js" ≠ "" ∧
  cache_wf world1 ∧
  serializeJavascript stubs (trace world1) (<[next_object world1 := ∅]> (heap world1))
    (VObject (next_object world1)) SERIALIZE_OPTS = Normal "{}" ∧
  (serializeOptions stubs VUndefined world1).1 = Normal (VString "{}") ∧
  serializer_calls (trace (serializeOptions stubs VUndefined world1).2)
    = serializer_calls (trace world1) ++ [VObject (next_object world1)] ∧
  optionsCache (serializeOptions stubs VUndefined world1).2
    = <[next_object world1 := "{}"]> (optionsCache world1).
Proof.
  assert (H1 : "file.js" ≠ "") by discriminate.
  assert (H2 : cache_wf world1).
  { unfold cache_wf. change (optionsCache world1) with (∅ : gmap loc string).
    rewrite dom_empty_L. apply empty_subseteq. }
  assert (H3 : serializeJavascript stubs (trace world1)
                 (<[next_object world1 := ∅]> (heap world1))
                 (VObject (next_object world1)) SERIALIZE_OPTS = Normal "{}")
    by (vm_compute; reflexivity).
  split; [exact H1|]. split; [exact H2|]. split; [exact H3|].
  destruct (omitted_configuration_never_hits_cache stubs some_pool "file.js" "{}"
              world1 H1 H2 H3) as (_ & _ & Hres & Hcalls & Hcache & _).
  split; [exact Hres|]. split; [exact Hcalls | exact Hcache].
Defined.

Lemma omitted_maxWorkers_resolves_to_NaN_witness :
  heap world1 !! 3%positive = Some {[ "foo" := VString "bar" ]} ∧
  ({[ "foo" := VString "bar" ]} : object) !! "maxWorkers" = None ∧
  maxWorkers_of (constructor stubs host8 bindings0 foo_bar world1).2
    (VObject (next_object world1)) = VNumber NaN.
Proof.
  assert (H1 : heap world1 !! 3%positive = Some {[ "foo" := VString "bar" ]})
    by (vm_compute; reflexivity).
  assert (H2 : ({[ "foo" := VString "bar" ]} : object) !! "maxWorkers" = None)
    by (vm_compute; reflexivity).
  split; [exact H1|]. split; [exact H2|].
  exact (proj1 (proj2 (omitted_maxWorkers_resolves_to_NaN stubs host8 bindings0
                         3%positive _ world1 H1 H2))).
Defined.

Lemma default_construction_maxWorkers_witness :
  module_loaded host8 bindings0 world0 ∧
  maxWorkers_of (constructor stubs host8 bindings0 VUndefined world0).2
    (VObject (next_object world0)) = VNumber (of_Z 7).
Proof.
  assert (H : module_loaded host8 bindings0 world0).
  { exists 2%positive, (VObject 1%positive). split; vm_compute; reflexivity. }
  split; [exact H|].
  exact (proj2 (proj2 (default_construction_maxWorkers stubs host8 bindings0 world0 H))
           eq_refl).
Defined.

Lemma supplied_options_are_not_merged_with_defaults_witness :
  heap world1 !! 3%positive = Some {[ "foo" := VString "bar" ]} ∧
  (ToNumber stubs
     (default VUndefined (({[ "foo" := VString "bar" ]} : object) !! "maxWorkers"))
     world1).1 = Normal NaN ∧
  ∃ o' : object,
    heap (constructor stubs host8 bindings0 foo_bar world1).2 !! next_object world1
      = Some o' ∧
    o' !! "foo" = Some (VString "bar") ∧
    o' !! "workerType" = None ∧
    o' !! "forkOpts" = None.
Proof.
  assert (H1 : heap world1 !! 3%positive = Some {[ "foo" := VString "bar" ]})
    by (vm_compute; reflexivity).
  assert (H2 : (ToNumber stubs
     (default VUndefined (({[ "foo" := VString "bar" ]} : object) !! "maxWorkers"))
     world1).1 = Normal NaN) by (vm_compute; reflexivity).
  split; [exact H1|]. split; [exact H2|].
  destruct (supplied_options_are_not_merged_with_defaults stubs host8 bindings0
              3%positive _ NaN world1 H1 H2) as (o' & _ & _ & Hnew & _ & Hkeys & _).
  exists o'. split; [exact Hnew|].
  rewrite !Hkeys by discriminate.
  repeat split; vm_compute; reflexivity.
Defined.

End Witnesses.

(** ** The further properties on examples *)

Module MoreWitnesses.

Import Doubles MoreDoubles.

Lemma world0_loaded : module_loaded host8 bindings0 world0.
Proof. exists 2%positive, (VObject 1%positive). split; vm_compute; reflexivity. Defined.

Lemma default_construction_log_witness :
  module_loaded host8 bindings0 world0 ∧
  debug_calls (trace (constructor stubs host8 bindings0 VUndefined world0).2)
    = [(MSG_STARTING, [VNumber (of_Z 7); VString ""])].
Proof.
  split; [exact world0_loaded|].
  exact (default_construction_log stubs host8 bindings0 world0 world0_loaded).
Defined.

Lemma omitted_maxWorkers_log_witness :
  heap world1 !! 3%positive = Some {[ "foo" := VString "bar" ]} ∧
  ({[ "foo" := VString "bar" ]} : object) !! "maxWorkers" = None ∧
  debug_calls (trace (constructor stubs host8 bindings0 foo_bar world1).2)
    = [(MSG_STARTING, [VNumber NaN; VString ""])].
Proof.
  assert (H1 : heap world1 !! 3%positive = Some {[ "foo" := VString "bar" ]})
    by (vm_compute; reflexivity).
  assert (H2 : ({[ "foo" := VString "bar" ]} : object) !! "maxWorkers" = None)
    by (vm_compute; reflexivity).
  split; [exact H1|]. split; [exact H2|].
  exact (proj1 (omitted_maxWorkers_log stubs host8 bindings0 3%positive _ world1 H1 H2)).
Defined.

Lemma supplied_maxWorkers_value_witness :
  heap world2 !! 4%positive = Some {[ "maxWorkers" := VNumber (of_Z 0) ]} ∧
  ({[ "maxWorkers" := VNumber (of_Z 0) ]} : object) !! "maxWorkers"
    = Some (VNumber (of_Z 0)) ∧
  isNaN (of_Z 0) = false ∧
  maxWorkers_of (constructor stubs host8 bindings0 zero_workers world2).2
    (VObject (next_object world2)) = VNumber (of_Z 1).
Proof.
  assert (H1 : heap world2 !! 4%positive = Some {[ "maxWorkers" := VNumber (of_Z 0) ]})
    by (vm_compute; reflexivity).
  assert (H2 : ({[ "maxWorkers" := VNumber (of_Z 0) ]} : object) !! "maxWorkers"
               = Some (VNumber (of_Z 0))) by (vm_compute; reflexivity).
  split; [exact H1|]. split; [exact H2|]. split; [reflexivity|].
  exact (proj1 (supplied_maxWorkers_value stubs host8 bindings0 4%positive _ (of_Z 0)
                  world2 H1 H2 eq_refl)).
Defined.



Lemma cached_string_survives_mutation_witness :
  optionsCache world1 !! 3%positive = None ∧
  serializeJavascript stubs (trace world1) (heap world1) foo_bar SERIALIZE_OPTS
    = Normal foo_bar_json ∧
  serializeOptions stubs foo_bar (set_heap ∅ world1_cached)
    = (Normal (VString foo_bar_json), set_heap ∅ world1_cached).
Proof.
  assert (H1 : optionsCache world1 !! 3%positive = None) by (vm_compute; reflexivity).
  assert (H2 : serializeJavascript stubs (trace world1) (heap world1) foo_bar
                 SERIALIZE_OPTS = Normal foo_bar_json) by (vm_compute; reflexivity).
  split; [exact H1|]. split; [exact H2|].
  exact (cached_string_survives_mutation stubs 3%positive foo_bar_json ∅ world1 H1 H2).
Defined.

Lemma cache_entries_persist_witness :
  optionsCache world1_cached !! 3%positive = Some foo_bar_json ∧
  optionsCache (serializeOptions stubs VUndefined world1_cached).2 !! 3%positive
    = Some foo_bar_json ∧
  optionsCache (run stubs some_pool (VString "file.js") VUndefined world1_cached).2
    !! 3%positive = Some foo_bar_json.
Proof.
  assert (H : optionsCache world1_cached !! 3%positive = Some foo_bar_json)
    by (vm_compute; reflexivity).
  split; [exact H|].
  exact (cache_entries_persist stubs some_pool (VString "file.js") VUndefined
           3%positive foo_bar_json world1_cached H).
Defined.

Lemma two_runs_share_one_serialization_witness :
  "a.js" ≠ "" ∧ "b.js" ≠ "" ∧
  optionsCache world1 !! 3%positive = None ∧
  serializeJavascript stubs (trace world1) (heap world1) foo_bar SERIALIZE_OPTS
    = Normal foo_bar_json ∧
  serializer_calls
    (trace (run stubs other_pool (VString "b.js") foo_bar
              (run stubs some_pool (VString "a.js") foo_bar world1).2).2)
    = [foo_bar] ∧
  exec_calls
    (trace (run stubs other_pool (VString "b.js") foo_bar
              (run stubs some_pool (VString "a.js") foo_bar world1).2).2)
    = [(pool_ref, "run", [VString "a.js"; VString foo_bar_json]);
       (VObject 103%positive, "run", [VString "b.js"; VString foo_bar_json])].
Proof.
  assert (H1 : "a.js" ≠ "") by discriminate.
  assert (H2 : "b.js" ≠ "") by discriminate.
  assert (H3 : optionsCache world1 !! 3%positive = None) by (vm_compute; reflexivity).
  assert (H4 : serializeJavascript stubs (trace world1) (heap world1) foo_bar
                 SERIALIZE_OPTS = Normal foo_bar_json) by (vm_compute; reflexivity).
  split; [exact H1|]. split; [exact H2|]. split; [exact H3|]. split; [exact H4|].
  exact (two_runs_share_one_serialization stubs some_pool other_pool "a.js" "b.js"
           foo_bar_json 3%positive world1 H1 H2 H3 H4).
Defined.

Lemma serializeOptions_returns_strings_witness :
  serializeOptions stubs foo_bar world1 = (Normal (VString foo_bar_json), world1_cached) ∧
  ∃ s, VString foo_bar_json = VString s.
Proof.
  assert (H : serializeOptions stubs foo_bar world1
              = (Normal (VString foo_bar_json), world1_cached))
    by (vm_compute; reflexivity).
  split; [exact H|].
  exact (serializeOptions_returns_strings stubs foo_bar _ world1 world1_cached H).
Defined.

Lemma reachable_worlds_are_well_formed_witness :
  reachable stubs host8 bindings0 world1 ∧
  cache_wf world1 ∧
  module_loaded host8 bindings0 world1 ∧
  maxWorkers_of (constructor stubs host8 bindings0 VUndefined world1).2
    (VObject (next_object world1)) = VNumber (of_Z 7).
Proof.
  split; [exact Witnesses.world1_reachable|].
  exact (reachable_worlds_are_well_formed stubs host8 bindings0 world1
           Witnesses.world1_reachable).
Defined.

End MoreWitnesses.

Module SupporterWitnesses.

Import Supporters SupporterDoubles SupportersFacts.

Local Open Scope nat_scope.

Lemma getAllOrders_collects_pages_witness :
  (∀ j, j < 1 →
     paginated many_orders (page_request (requested_slug VUndefined) j)
       = Normal (pages_of_many j) ∧
     graphqlPageSize ≤ length (pages_of_many j)) ∧
  paginated many_orders (page_request (requested_slug VUndefined) 1)
    = Normal (pages_of_many 1) ∧
  length (pages_of_many 1) < graphqlPageSize ∧
  1 < 2 ∧
  ∃ log,
    getAllOrders (paginated many_orders) 2 VUndefined
      = Some (Normal (concat (pages_of_many <$> seq 0 2)), log) ∧
    posted log = page_request (requested_slug VUndefined) <$> seq 0 2.
Proof.
  assert (H1 : ∀ j, j < 1 →
     paginated many_orders (page_request (requested_slug VUndefined) j)
       = Normal (pages_of_many j) ∧
     graphqlPageSize ≤ length (pages_of_many j)).
  { intros j Hj. assert (j = 0) as -> by lia. split; [reflexivity|].
    vm_compute. apply le_n. }
  assert (H2 : length (pages_of_many 1) < graphqlPageSize)
    by (vm_compute; lia).
  assert (H3 : 1 < 2) by lia.
  split; [exact H1|]. split; [reflexivity|]. split; [exact H2|]. split; [exact H3|].
  exact (getAllOrders_collects_pages (paginated many_orders) pages_of_many VUndefined
           1 2 H1 eq_refl H2 H3).
Defined.


Lemma getAllOrders_needs_a_short_page_witness :
  (∀ variables, ∃ orders,
     stuck_server variables = Normal orders ∧ graphqlPageSize ≤ length orders) ∧
  getAllOrders stuck_server 5 VUndefined = None.
Proof.
  assert (H : ∀ variables, ∃ orders,
     stuck_server variables = Normal orders ∧ graphqlPageSize ≤ length orders).
  { intros variables. eexists. split; [reflexivity|].
    rewrite length_replicate. apply le_n. }
  split; [exact H|].
  exact (getAllOrders_needs_a_short_page stuck_server VUndefined 5 H).
Defined.

Lemma getAllOrders_returns_every_order_witness :
  (∀ variables,
     paginated many_orders variables
       = Normal (take (limit variables) (drop (offset variables) many_orders))) ∧
  length many_orders / graphqlPageSize < 2 ∧
  ∃ log,
    getAllOrders (paginated many_orders) 2 VUndefined = Some (Normal many_orders, log) ∧
    length (posted log) = S (length many_orders / graphqlPageSize).
Proof.
  assert (H1 : ∀ variables,
     paginated many_orders variables
       = Normal (take (limit variables) (drop (offset variables) many_orders)))
    by reflexivity.
  assert (H2 : length many_orders / graphqlPageSize < 2) by (vm_compute; lia).
  split; [exact H1|]. split; [exact H2|].
  exact (getAllOrders_returns_every_order (paginated many_orders) many_orders VUndefined
           2 H1 H2).
Defined.


Lemma four_amounts_known : amounts_of_four_known.
Proof. repeat constructor. Defined.


Lemma result_keeps_first_largest_order_witness :
  amounts_of_four_known ∧
  ∃ b,
    (with_orders product four_orders).1 = inr b ∧
    ∀ s, s ∈ backers b ++ sponsors b →
      first_largest_of_account (map (nodeToSupporter product) four_orders) s.
Proof.
  split; [exact four_amounts_known|].
  exact (result_keeps_first_largest_order product four_orders four_amounts_known).
Defined.


End SupporterWitnesses.
